(** * PaintableImage: the raster annotation and region-extraction engine

    A shallow embedding of the script part of
    [frontend/src/routes/dev/PaintableImage.svelte]: the overlay canvas, its
    undo/redo history, the pointer handlers, the alpha-mask scan of
    [breakBones] and the two submission modes.

    Conventions of the embedding.
    - A JavaScript number is an exact rational ([Q]); rounding of binary
      floating point is not modelled, and neither is a division by zero
      (NaN or Infinity in JavaScript, 0 in [Q]): the statements that
      depend on one assume a canvas that is laid out.  Loop counters and
      array lengths are [nat], integer results of [Math.round] are [Z].
    - A canvas backing store is the flat RGBA byte array that
      [getImageData] exposes, four entries per pixel, row-major.
    - The browser's rasteriser decides coverage at the centre of a device
      pixel; anti-aliasing of partially covered pixels is not modelled.
    - What the outside world answers (network, encoder, clock, random
      numbers) is an explicit argument of the function that asks for it.
    - A run of [breakBones] is taken as a whole: no other handler runs
      while it awaits.

    Not embedded: [setCanvasSize], [onWindowResize] and [keyHandler] (no
    statement below is about them; they assign neither history stack), the
    second canvas that shows the pointer, and the markup. *)

From Stdlib Require Import ZArith QArith Qround Lqa List String Ascii Bool Arith Lia.
From Stdlib Require Import DecimalString.
Import ListNotations.

Close Scope Q_scope.
Open Scope string_scope.
Open Scope list_scope.

(* ================================================================== *)
(** * Numbers *)

Module Math.

(** [Math.round]: the nearest integer, halves rounded towards +infinity. *)
Definition round (q : Q) : Z := Qfloor (q + (1 # 2))%Q.

(** [Math.max] on two arguments. *)
Definition max (a b : Q) : Q := if Qle_bool a b then b else a.

End Math.

Definition Qltb (a b : Q) : bool := negb (Qle_bool b a).

(** [n.toString()] for an integer-valued number. *)
Definition toString (z : Z) : string := NilZero.string_of_int (Z.to_int z).

(** Truncation towards zero, the first step of WebIDL's conversion of a
    number to [unsigned long]. *)
Definition truncate (q : Q) : Z := if Qle_bool 0 q then Qfloor q else Qceiling q.

Definition ToUint32 (q : Q) : Z := (truncate q) mod 2 ^ 32.

(** Assignment to [canvas.width] / [canvas.height]: the number is converted
    to [unsigned long]; a value above 2^31-1 is replaced by the attribute's
    default (300 for the width, 150 for the height). *)
Definition reflectDimension (default : Z) (q : Q) : nat :=
  let n := ToUint32 q in
  Z.to_nat (if n <=? 2147483647 then n else default)%Z.

(* ================================================================== *)
(** * Canvas backing store *)

Module Canvas.

Record t : Type := mk {
  width  : nat;
  height : nat;
  pixels : list Z        (* RGBA, row-major, 4 * width * height entries *)
}.

Definition wf (c : t) : Prop :=
  List.length (pixels c) = 4 * (width c * height c).

(** [document.createElement('canvas')] with the given size: transparent black. *)
Definition blank (w h : nat) : t :=
  mk w h (repeat 0%Z (4 * (w * h))).

(** The four channels of the pixel at column [x], row [y]. *)
Definition rgba (c : t) (x y : nat) : list Z :=
  let k := (y * width c + x) * 4 in
  [nth k (pixels c) 0%Z; nth (k + 1) (pixels c) 0%Z;
   nth (k + 2) (pixels c) 0%Z; nth (k + 3) (pixels c) 0%Z].

(** Rebuild the store pixel by pixel. *)
Definition tabulate (w h : nat) (f : nat -> nat -> list Z) : t :=
  mk w h (flat_map (fun k => f (k mod w) (k / w)) (seq 0 (w * h))).

(** [ctx.clearRect(0, 0, canvas.width, canvas.height)]: the rectangle is
    in CSS pixels under [scale(dpr)] with [dpr >= 1], so that it covers the
    whole store. *)
Definition clearRect (c : t) : t := blank (width c) (height c).

End Canvas.

(** [ctx.getImageData(0, 0, canvas.width, canvas.height)]. *)
Record ImageData : Type := {
  data : list Z
}.

Definition getImageData (c : Canvas.t) : ImageData :=
  {| data := Canvas.pixels c |}.

Module DOMRect.
Record t : Type := mk {
  left : Q;
  top : Q;
  width : Q;
  height : Q
}.
End DOMRect.

(** An sRGB colour such as ['#ff4757']; every colour the component uses is
    opaque. *)
Definition Color : Type := (Z * Z * Z)%type.

Definition cyan : Color := (0, 255, 255)%Z.        (* '#0ff' *)
Definition defaultBrush : Color := (255, 71, 87)%Z.  (* '#ff4757' *)

(* ------------------------------------------------------------------ *)
(** ** Paths and strokes *)

(** The sub-paths the component ever builds: the segment of [drawLine]
    ([moveTo]; [lineTo]) and the rectangle of [breakBones] ([rect]), both in
    CSS pixels (the context transform is [scale(dpr)] throughout). *)
Inductive Subpath : Type :=
| Line (x1 y1 x2 y2 : Q)
| Rect (x y w h : Q).

Definition sq (a : Q) : Q := (a * a)%Q.

(** Is the point [(cx, cy)] within distance [hw] of the segment, measured
    with round caps (a capsule) or with butt caps (a band that ends at the
    end points; nothing at all for a segment of length zero)? *)
Definition segmentCovers (round : bool) (hw x1 y1 x2 y2 cx cy : Q) : bool :=
  let dx := (x2 - x1)%Q in
  let dy := (y2 - y1)%Q in
  let l2 := (sq dx + sq dy)%Q in
  let t := ((cx - x1) * dx + (cy - y1) * dy)%Q in
  let cross := ((cx - x1) * dy - (cy - y1) * dx)%Q in
  if Qle_bool l2 0 then
    round && Qle_bool (sq (cx - x1) + sq (cy - y1)) (sq hw)
  else if Qltb t 0 then
    round && Qle_bool (sq (cx - x1) + sq (cy - y1)) (sq hw)
  else if Qltb l2 t then
    round && Qle_bool (sq (cx - x2) + sq (cy - y2)) (sq hw)
  else Qle_bool (sq cross) (sq hw * l2).

Definition Qmin (a b : Q) : Q := if Qle_bool a b then a else b.

(** Coverage of a stroked sub-path.  [round] selects round caps and joins
    ([drawLine]); otherwise caps are butt and joins are mitred (the context
    defaults, in force in [breakBones]).  A mitred rectangle is the band
    between the rectangle grown and shrunk by [hw]; a rectangle with one
    zero side is a segment traversed twice and one with two zero sides has
    no line at all. *)
Definition subpathCovers (round : bool) (hw : Q) (p : Subpath) (cx cy : Q) : bool :=
  match p with
  | Line x1 y1 x2 y2 => segmentCovers round hw x1 y1 x2 y2 cx cy
  | Rect x y w h =>
      let x0 := Qmin x (x + w) in
      let x1 := Math.max x (x + w) in
      let y0 := Qmin y (y + h) in
      let y1 := Math.max y (y + h) in
      if round || Qeq_bool w 0 || Qeq_bool h 0 then
        segmentCovers round hw x0 y0 x1 y0 cx cy
        || segmentCovers round hw x1 y0 x1 y1 cx cy
        || segmentCovers round hw x1 y1 x0 y1 cx cy
        || segmentCovers round hw x0 y1 x0 y0 cx cy
      else
        Qle_bool (x0 - hw) cx && Qle_bool cx (x1 + hw)
        && Qle_bool (y0 - hw) cy && Qle_bool cy (y1 + hw)
        && negb (Qltb (x0 + hw) cx && Qltb cx (x1 - hw)
                 && Qltb (y0 + hw) cy && Qltb cy (y1 - hw))
  end.

Inductive CompositeOperation : Type := source_over | destination_out.

(** [ctx.stroke()] of [path] with an opaque [strokeStyle]: every device
    pixel whose centre the stroke covers takes the colour ([source-over]) or
    becomes transparent ([destination-out]). *)
Definition stroke (op : CompositeOperation) (round : bool) (strokeStyle : Color)
    (lineWidth dpr : Q) (path : list Subpath) (c : Canvas.t) : Canvas.t :=
  Canvas.tabulate (Canvas.width c) (Canvas.height c) (fun x y =>
    let cx := ((inject_Z (Z.of_nat x) + (1 # 2)) / dpr)%Q in
    let cy := ((inject_Z (Z.of_nat y) + (1 # 2)) / dpr)%Q in
    if existsb (fun p => subpathCovers round (lineWidth / 2) p cx cy) path then
      match op with
      | source_over => let '(r, g, b) := strokeStyle in [r; g; b; 255%Z]
      | destination_out => [0; 0; 0; 0]%Z
      end
    else Canvas.rgba c x y).

(* ------------------------------------------------------------------ *)
(** ** drawImage *)

Definition between (a b c : Q) : bool :=
  Qle_bool (Qmin a b) c && Qle_bool c (Math.max a b).

(** The column (or row) of the image that lands on the device pixel with
    centre [c]: the source interval [s, s + sw] is stretched over the
    destination interval [d, d + dw] and sampled at the nearest pixel,
    clamped to the image. *)
Definition sample (s sw d dw c : Q) (size : nat) : nat :=
  Z.to_nat (Z.max 0 (Z.min (Z.of_nat size - 1)
                           (Qfloor (s + (c - d) * sw / dw)%Q))).

(** [drawImage(image, sx, sy, sw, sh, dx, dy, dw, dh)] in device pixels, on
    a destination that is transparent where the image lands (every
    destination in this component is freshly created or cleared), so that
    compositing is a copy. *)
Definition drawImage (image : Canvas.t) (sx sy sw sh dx dy dw dh : Q)
    (dst : Canvas.t) : Canvas.t :=
  if Qeq_bool sw 0 || Qeq_bool sh 0 then dst else
  Canvas.tabulate (Canvas.width dst) (Canvas.height dst) (fun i j =>
    let cx := (inject_Z (Z.of_nat i) + (1 # 2))%Q in
    let cy := (inject_Z (Z.of_nat j) + (1 # 2))%Q in
    if between dx (dx + dw) cx && between dy (dy + dh) cy then
      Canvas.rgba image (sample sx sw dx dw cx (Canvas.width image))
                        (sample sy sh dy dh cy (Canvas.height image))
    else Canvas.rgba dst i j).

(* ================================================================== *)
(** * Strings, arrays and form data *)

(** [s.includes(sub)]. *)
Fixpoint includes (s sub : string) : bool :=
  if prefix sub s then true
  else match s with
       | EmptyString => false
       | String _ s' => includes s' sub
       end.

(** [s.split('/')], for a one-character separator. *)
Fixpoint split (s : string) (sep : ascii) : list string :=
  match s with
  | EmptyString => [""]
  | String a s' =>
      if Ascii.eqb a sep then "" :: split s' sep
      else match split s' sep with
           | seg :: segs => String a seg :: segs
           | [] => [String a ""]
           end
  end.

(** [a.pop()]: the last element ([None] is [undefined]) and the array that
    is left. *)
Definition pop {A : Type} (a : list A) : option A * list A :=
  match rev a with
  | [] => (None, [])
  | x :: r => (Some x, rev r)
  end.

(** [a.shift()], the array that is left. *)
Definition shift {A : Type} (a : list A) : list A := tl a.

Inductive Blob : Type :=
| bytes (content : list Z)          (* a body read off the network *)
| pngBlob (bitmap : Canvas.t).      (* what [canvas.toBlob] encodes *)

Inductive FormValue : Type :=
| text (s : string)
| file (b : Blob) (filename : string).

(** How [FormData.append] stores a possibly [undefined] string. *)
Definition stringify (v : option string) : FormValue :=
  match v with
  | Some s => text s
  | None => text "undefined"
  end.

Module FormData.

Definition t : Type := list (string * FormValue).

Definition append (name : string) (v : FormValue) (fd : t) : t :=
  fd ++ [(name, v)].

Definition delete (name : string) (fd : t) : t :=
  filter (fun e => negb (String.eqb (fst e) name)) fd.


Definition getAll (name : string) (fd : t) : list FormValue :=
  map snd (filter (fun e => String.eqb (fst e) name) fd).


End FormData.

(* ================================================================== *)
(** * Component state *)

(** [canvas.toDataURL('image/png')]: a lossless copy of the backing store. *)
Inductive DataURL : Type := png (bitmap : Canvas.t).

(** [ok = false] stands for the call throwing (a canvas too large to
    encode, or no canvas element bound while the editing surface is
    closed); every caller catches or drops that. *)
Definition toDataURL (ok : bool) (c : Canvas.t) : option DataURL :=
  if ok then Some (png c) else None.

Inductive Tool : Type := brush | eraser.

Record State : Type := mkState {
  imageSrc : string;
  src : string;
  canvas : Canvas.t;                 (* the overlay *)
  path : list Subpath;               (* current path of [ctx] *)
  dpr : Q;
  tool : Tool;
  brushColor : Color;
  brushSize : Q;
  drawing : bool;
  lastX : Q;
  lastY : Q;
  undoStack : list DataURL;          (* oldest first, as the array *)
  redoStack : list DataURL;
  overlayDataUrl : option DataURL;
  loading : list DataURL             (* images of [restoreFrom] not yet loaded *)
}.

Definition set_canvas (c : Canvas.t) (p : list Subpath) (st : State) : State :=
  mkState (imageSrc st) (src st) c p (dpr st) (tool st) (brushColor st)
          (brushSize st) (drawing st) (lastX st) (lastY st) (undoStack st)
          (redoStack st) (overlayDataUrl st) (loading st).

Definition set_pointer (d : bool) (x y : Q) (st : State) : State :=
  mkState (imageSrc st) (src st) (canvas st) (path st) (dpr st) (tool st)
          (brushColor st) (brushSize st) d x y (undoStack st)
          (redoStack st) (overlayDataUrl st) (loading st).

Definition set_stacks (u r : list DataURL) (st : State) : State :=
  mkState (imageSrc st) (src st) (canvas st) (path st) (dpr st) (tool st)
          (brushColor st) (brushSize st) (drawing st) (lastX st) (lastY st)
          u r (overlayDataUrl st) (loading st).

Definition set_overlayDataUrl (o : option DataURL) (st : State) : State :=
  mkState (imageSrc st) (src st) (canvas st) (path st) (dpr st) (tool st)
          (brushColor st) (brushSize st) (drawing st) (lastX st) (lastY st)
          (undoStack st) (redoStack st) o (loading st).

Definition set_loading (l : list DataURL) (st : State) : State :=
  mkState (imageSrc st) (src st) (canvas st) (path st) (dpr st) (tool st)
          (brushColor st) (brushSize st) (drawing st) (lastX st) (lastY st)
          (undoStack st) (redoStack st) (overlayDataUrl st) l.

Definition set_src (s : string) (st : State) : State :=
  mkState (imageSrc st) s (canvas st) (path st) (dpr st) (tool st)
          (brushColor st) (brushSize st) (drawing st) (lastX st) (lastY st)
          (undoStack st) (redoStack st) (overlayDataUrl st) (loading st).

Definition set_imageSrc (s : string) (st : State) : State :=
  mkState s (src st) (canvas st) (path st) (dpr st) (tool st)
          (brushColor st) (brushSize st) (drawing st) (lastX st) (lastY st)
          (undoStack st) (redoStack st) (overlayDataUrl st) (loading st).

(** What the handlers read off the document: the canvas element's bounding
    client rectangle and the natural size of the image element. *)
Record Layout : Type := {
  rect : DOMRect.t;
  naturalWidth : Z;
  naturalHeight : Z
}.

Record PointerEvent : Type := {
  button : Z;
  clientX : Q;
  clientY : Q;
  pressure : Q
}.

(* ================================================================== *)
(** * History *)

Definition pushUndo (ok : bool) (st : State) : State :=
  match toDataURL ok (canvas st) with
  | Some url =>
      let undoStack := undoStack st ++ [url] in
      let undoStack := if (25 <? List.length undoStack)%nat then shift undoStack
                       else undoStack in
      (* new action invalidates redo history *)
      set_stacks undoStack [] st
  | None => st         (* ignore memory errors from huge canvases *)
  end.

(** The image is decoded in the background; its [onload] runs later.
    Images finish loading in the order in which they were started. *)
Definition restoreFrom (url : DataURL) (st : State) : State :=
  set_loading (loading st ++ [url]) st.

(** The [img.onload] of the oldest pending [restoreFrom]; [ok] is the
    outcome of the [toDataURL] that ends it. *)
Definition onload (dom : Layout) (ok : bool) (st : State) : State :=
  match loading st with
  | [] => st
  | png img :: rest =>
      (* clear & redraw, in CSS coords under the transform scale(dpr) *)
      let cleared := Canvas.clearRect (canvas st) in
      let redrawn :=
        drawImage img 0 0
          (inject_Z (Z.of_nat (Canvas.width img)))
          (inject_Z (Z.of_nat (Canvas.height img)))
          0 0
          (DOMRect.width (rect dom) * dpr st)
          (DOMRect.height (rect dom) * dpr st) cleared in
      let st := set_loading rest (set_canvas redrawn (path st) st) in
      match toDataURL ok redrawn with
      | Some url => set_overlayDataUrl (Some url) st
      | None => st
      end
  end.

Definition undo (ok : bool) (st : State) : State :=
  if (List.length (undoStack st) =? 0)%nat then st else
  match toDataURL ok (canvas st) with
  | Some current =>
      let redoStack := redoStack st ++ [current] in
      match pop (undoStack st) with
      | (Some last, undoStack) =>
          restoreFrom last (set_stacks undoStack redoStack st)
      | (None, _) => st
      end
  | None => st
  end.

Definition redo (ok : bool) (st : State) : State :=
  if (List.length (redoStack st) =? 0)%nat then st else
  match toDataURL ok (canvas st) with
  | Some current =>
      let undoStack := undoStack st ++ [current] in
      match pop (redoStack st) with
      | (Some next, redoStack) =>
          restoreFrom next (set_stacks undoStack redoStack st)
      | (None, _) => st
      end
  | None => st
  end.

(** [ok] is the snapshot of [pushUndo], [ok'] the one stored in
    [overlayDataUrl]; when the latter throws, the exception leaves the
    handler after the overlay has been cleared. *)
Definition clearCanvas (ok ok' : bool) (st : State) : State :=
  let st := pushUndo ok st in
  let cleared := Canvas.clearRect (canvas st) in
  let st := set_canvas cleared (path st) st in
  match toDataURL ok' cleared with
  | Some url => set_overlayDataUrl (Some url) st
  | None => st
  end.

(* ================================================================== *)
(** * Drawing and pointer input *)

Definition drawLine (x1 y1 x2 y2 pressure : Q) (st : State) : State :=
  let op := match tool st with
            | eraser => destination_out
            | brush => source_over
            end in
  let lineWidth := Math.max (1 # 2) (brushSize st * pressure) in
  (* beginPath(); moveTo(x1, y1); lineTo(x2, y2); stroke() *)
  let path := [Line x1 y1 x2 y2] in
  set_canvas (stroke op true (brushColor st) lineWidth (dpr st) path (canvas st))
             path st.

Definition drawPoint (x y pressure : Q) (st : State) : State :=
  drawLine x y x y pressure st.

Definition pointerPos (dom : Layout) (e : PointerEvent) : Q * Q :=
  ((clientX e - DOMRect.left (rect dom))%Q, (clientY e - DOMRect.top (rect dom))%Q).

(** [e.pressure && e.pressure > 0 ? e.pressure : 1]. *)
Definition effectivePressure (e : PointerEvent) : Q :=
  if Qltb 0 (pressure e) then pressure e else 1%Q.

(** Pointer capture is best effort and leaves no trace in the state. *)
Definition onPointerDown (dom : Layout) (e : PointerEvent) (ok : bool)
    (st : State) : State :=
  if (button e =? 1)%Z || (button e =? 2)%Z then st   (* ignore mid/right click *)
  else
    let st := pushUndo ok st in
    let p := pointerPos dom e in
    let st := set_pointer true (fst p) (snd p) st in
    drawPoint (fst p) (snd p) (effectivePressure e) st.

(** The pointer indicator is drawn on the second canvas, which is not part
    of the state. *)
Definition onPointerMove (dom : Layout) (e : PointerEvent) (st : State) : State :=
  if negb (drawing st) then st
  else
    let p := pointerPos dom e in
    let st := drawLine (lastX st) (lastY st) (fst p) (snd p) (effectivePressure e) st in
    set_pointer (drawing st) (fst p) (snd p) st.

Definition onPointerUp (ok : bool) (st : State) : State :=
  let st := set_pointer false (lastX st) (lastY st) st in
  match toDataURL ok (canvas st) with
  | Some url => set_overlayDataUrl (Some url) st
  | None => st
  end.

(* ================================================================== *)
(** * Region scan *)

(** The variables of the scan loop of [breakBones]: the four bounds in
    device pixels, the number of painted pixels and the seed points. *)
Record Region : Type := mkRegion {
  minX : Z;
  minY : Z;
  maxX : Z;
  maxY : Z;
  count : nat;
  seeds : list (Q * Q)
}.

(** The body of the inner loop at column [x] of row [y].  [random k] is the
    value of the [k]-th call of [Math.random()]; one call is made per
    painted pixel. *)
Definition scanPixel (imgData : ImageData) (c : Canvas.t) (rect : DOMRect.t)
    (random : nat -> Q) (y x : nat) (r : Region) : Region :=
  let alpha := nth ((y * Canvas.width c + x) * 4 + 3) (data imgData) 0%Z in
  if (0 <? alpha)%Z then
    let seeds :=
      if Qltb (95 # 100) (random (count r)) then
        seeds r ++
          [((inject_Z (Z.of_nat x)
              * (DOMRect.width rect / inject_Z (Z.of_nat (Canvas.width c))))%Q,
            (inject_Z (Z.of_nat y)
              * (DOMRect.height rect / inject_Z (Z.of_nat (Canvas.height c))))%Q)]
      else seeds r in
    mkRegion
      (if (Z.of_nat x <? minX r)%Z then Z.of_nat x else minX r)
      (if (Z.of_nat y <? minY r)%Z then Z.of_nat y else minY r)
      (if (maxX r <? Z.of_nat x)%Z then Z.of_nat x else maxX r)
      (if (maxY r <? Z.of_nat y)%Z then Z.of_nat y else maxY r)
      (S (count r))
      seeds
  else r.

Definition scanRow (imgData : ImageData) (c : Canvas.t) (rect : DOMRect.t)
    (random : nat -> Q) (r : Region) (y : nat) : Region :=
  fold_left (fun r x => scanPixel imgData c rect random y x r)
            (seq 0 (Canvas.width c)) r.

Definition scan (imgData : ImageData) (c : Canvas.t) (rect : DOMRect.t)
    (random : nat -> Q) : Region :=
  fold_left (scanRow imgData c rect random)
            (seq 0 (Canvas.height c))
            (mkRegion (Z.of_nat (Canvas.width c)) (Z.of_nat (Canvas.height c))
                      0 0 0 []).

(* ================================================================== *)
(** * Submission *)

Record Response : Type := {
  ok : bool;
  body : Blob
}.

(** What the world outside the component answers during one run of
    [breakBones]. *)
Record World : Type := {
  PUBLIC_BACKEND_URL : string;     (* '$env/static/public' *)
  fetched : option Blob;           (* fetch(imageSrc).then(res => res.blob()) *)
  random : nat -> Q;               (* successive values of Math.random() *)
  encoded : bool;                  (* toBlob produces a blob for a canvas with pixels *)
  response : option Response;      (* None: the POST is rejected in transport *)
  now : Z;                         (* new Date().getTime() *)
  objectURL : string;              (* URL.createObjectURL(blob) *)
  session : option string          (* localStorage.getItem('session') *)
}.

Inductive Effect : Type :=
| GET (url : string)
| POST (url : string) (body : FormData.t) (authorization : string)
| explode (seeds : list (Q * Q)).

(** Modelled from the spec: [triggerExplode] (module [./Explosion], not
    among the sources) is "a fire-and-forget visual notifier invoked with a
    list of points"; it is recorded as an effect and leaves the overlay as
    it is. *)
Definition triggerExplode (seeds : list (Q * Q)) : list Effect := [explode seeds].

(** [canvas.toBlob]: no blob for a canvas without pixels, or when the
    encoder gives up. *)
Definition toBlob (encoded : bool) (c : Canvas.t) : option Blob :=
  if (Canvas.width c =? 0)%nat || (Canvas.height c =? 0)%nat then None
  else if encoded then Some (pngBlob c) else None.

Definition bearer (session : option string) : string :=
  "Bearer " ++ match session with Some s => s | None => "null" end.

Inductive Mode : Type := direct | queued.

Definition submissionMode (w : World) (st : State) : Mode :=
  if includes (imageSrc st) (PUBLIC_BACKEND_URL w) then queued else direct.

(** The bounding box in display space (lines 303-306). *)
Definition toDisplay (v : Z) (display : Q) (device : nat) : Q :=
  (inject_Z v * display / inject_Z (Z.of_nat device))%Q.

Definition breakBones (w : World) (dom : Layout) (st : State)
    : State * list Effect :=
  let fx := [GET (imageSrc st)] in
  match fetched w with
  | None => (st, fx)
  | Some image =>
  let formData := FormData.append "image_file" (file image "image.png") [] in
  let formData := FormData.append "scale" (text "1.0") formData in
  let formData := FormData.append "noise" (text "10") formData in
  (* find a bounding box around the non transparent pixels in the overlay *)
  let rect := rect dom in
  let overlay := canvas st in
  let cw := inject_Z (Z.of_nat (Canvas.width overlay)) in
  let ch := inject_Z (Z.of_nat (Canvas.height overlay)) in
  let rw := DOMRect.width rect in
  let rh := DOMRect.height rect in
  let imgData := getImageData overlay in
  let found := scan imgData overlay rect (random w) in
  let fx := fx ++ triggerExplode (seeds found) in
  let minX := toDisplay (minX found) rw (Canvas.width overlay) in
  let minY := toDisplay (minY found) rh (Canvas.height overlay) in
  let maxX := toDisplay (maxX found) rw (Canvas.width overlay) in
  let maxY := toDisplay (maxY found) rh (Canvas.height overlay) in
  (* ctx.rect(...); ctx.stroke() with strokeStyle '#0ff', lineWidth 2 *)
  let outlined := path st ++ [Rect minX minY (maxX - minX) (maxY - minY)] in
  let overlay := stroke source_over false cyan 2 (dpr st) outlined overlay in
  let st := set_canvas overlay outlined st in
  let croppedCanvas :=
    Canvas.blank (reflectDimension 300 (maxX - minX))
                 (reflectDimension 150 (maxY - minY)) in
  let croppedCanvas :=
    drawImage overlay
      (minX * (cw / rw)) (minY * (ch / rh))
      ((maxX - minX) * (cw / rw)) ((maxY - minY) * (ch / rh))
      0 0
      ((maxX - minX) * (cw / rw)) ((maxY - minY) * (ch / rh))
      croppedCanvas in
  match toBlob (encoded w) croppedCanvas with
  | None => (st, fx)      (* 'Canvas could not be blobbed.' *)
  | Some blob =>
  let formData := FormData.append "overlay_file" (file blob "overlay.png") formData in
  let formData :=
    FormData.append "x"
      (text (toString (Math.round (minX * (inject_Z (naturalWidth dom) / rw)))))
      formData in
  let formData :=
    FormData.append "y"
      (text (toString (Math.round (minY * (inject_Z (naturalHeight dom) / rh)))))
      formData in
  match submissionMode w st with
  | queued =>
      let formDataQueue := formData in
      let splitUrl := split (imageSrc st) "/" in
      let '(choice, splitUrl) := pop splitUrl in
      let formDataQueue := FormData.append "choice" (stringify choice) formDataQueue in
      let '(job_id, splitUrl) := pop splitUrl in
      let formDataQueue := FormData.append "job_id" (stringify job_id) formDataQueue in
      let formDataQueue := FormData.delete "image_file" formDataQueue in
      let fx := fx ++ [POST (PUBLIC_BACKEND_URL w ++ "/apply_fracture_queue")
                            formDataQueue (bearer (session w))] in
      match response w with
      | None => (st, fx)
      | Some res =>
          if ok res then
            (set_src (src st ++ "?t=" ++ toString (now w)) st, fx)  (* bust cache (hack) *)
          else (st, fx)
      end
  | direct =>
      let fx := fx ++ [POST (PUBLIC_BACKEND_URL w ++ "/apply_fracture")
                            formData (bearer (session w))] in
      match response w with
      | None => (st, fx)
      | Some res =>
          if ok res then
            let st := set_imageSrc (objectURL w) st in
            (* clear overlay *)
            let st := set_stacks [] [] st in
            let st := set_overlayDataUrl None st in
            (set_canvas (Canvas.clearRect (canvas st)) (path st) st, fx)
          else (st, fx)
      end
  end
  end
  end.

(* ================================================================== *)
(** * Vocabulary of the statements *)

(** Alpha channel of the overlay pixel at column [x], row [y], as the scan
    reads it. *)
Definition alphaAt (c : Canvas.t) (x y : nat) : Z :=
  nth ((y * Canvas.width c + x) * 4 + 3) (data (getImageData c)) 0%Z.

Definition painted (c : Canvas.t) (x y : nat) : Prop := (0 < alphaAt c x y)%Z.

Definition inBox (r : Region) (x y : nat) : Prop :=
  (minX r <= Z.of_nat x <= maxX r)%Z /\ (minY r <= Z.of_nat y <= maxY r)%Z.

(** Pixels in the order the two loops visit them, as (row, column). *)
Definition scanOrder (c : Canvas.t) : list (nat * nat) :=
  flat_map (fun y => map (pair y) (seq 0 (Canvas.width c))) (seq 0 (Canvas.height c)).

(** The loop body at the pixel [p], given as (row, column). *)
Definition scanStep (c : Canvas.t) (rect : DOMRect.t) (random : nat -> Q)
    (r : Region) (p : nat * nat) : Region :=
  scanPixel (getImageData c) c rect random (fst p) (snd p) r.

(** What a run of the loop body over the pixels [l], from [r0] to [r],
    guarantees. *)
Record ScanInv (c : Canvas.t) (l : list (nat * nat)) (r0 r : Region) : Prop := {
  inv_grows :
    (minX r <= minX r0 /\ minY r <= minY r0 /\ maxX r0 <= maxX r /\ maxY r0 <= maxY r)%Z;
  inv_covers :
    forall x y, In (y, x) l -> painted c x y -> inBox r x y;
  inv_minX : minX r = minX r0 \/
    exists y, In (y, Z.to_nat (minX r)) l /\ painted c (Z.to_nat (minX r)) y /\ (0 <= minX r)%Z;
  inv_minY : minY r = minY r0 \/
    exists x, In (Z.to_nat (minY r), x) l /\ painted c x (Z.to_nat (minY r)) /\ (0 <= minY r)%Z;
  inv_maxX : maxX r = maxX r0 \/
    exists y, In (y, Z.to_nat (maxX r)) l /\ painted c (Z.to_nat (maxX r)) y /\ (0 <= maxX r)%Z;
  inv_maxY : maxY r = maxY r0 \/
    exists x, In (Z.to_nat (maxY r), x) l /\ painted c x (Z.to_nat (maxY r)) /\ (0 <= maxY r)%Z;
  inv_count :
    count r = count r0 + List.length (filter (fun p => (0 <? alphaAt c (snd p) (fst p))%Z) l)
}.

(** A 3 x 2 overlay whose only painted pixel is at column 1, row 1. *)
Definition onePixel : Canvas.t :=
  Canvas.mk 3 2 [0; 0; 0; 0;  0; 0; 0; 0;  0; 0; 0; 0;
                 0; 0; 0; 0;  255; 71; 87; 255;  0; 0; 0; 0]%Z.

(** States the component can be in.  A session starts with both stacks
    empty (mount, [onImageLoad]); the handlers embedded above move it on;
    every other handler ([setCanvasSize], [onWindowResize], the tool keys
    and inputs of the toolbar) assigns neither stack. *)
Inductive reachable : State -> Prop :=
| reach_start : forall st,
    undoStack st = [] -> redoStack st = [] -> reachable st
| reach_onPointerDown : forall dom e ok st,
    reachable st -> reachable (onPointerDown dom e ok st)
| reach_onPointerMove : forall dom e st,
    reachable st -> reachable (onPointerMove dom e st)
| reach_onPointerUp : forall ok st,
    reachable st -> reachable (onPointerUp ok st)
| reach_clearCanvas : forall ok ok' st,
    reachable st -> reachable (clearCanvas ok ok' st)
| reach_undo : forall ok st,
    reachable st -> reachable (undo ok st)
| reach_redo : forall ok st,
    reachable st -> reachable (redo ok st)
| reach_onload : forall dom ok st,
    reachable st -> reachable (onload dom ok st)
| reach_breakBones : forall w dom st,
    reachable st -> reachable (fst (breakBones w dom st))
| reach_other : forall st st',
    reachable st ->
    undoStack st' = undoStack st -> redoStack st' = redoStack st ->
    reachable st'.

(** An editing state around a given overlay and pair of stacks. *)
Definition editing (c : Canvas.t) (u r : list DataURL) : State :=
  mkState "cam.png" "cam.png" c [] 1%Q brush defaultBrush 14%Q false 0%Q 0%Q u r None [].

(** The stages of one run of [breakBones], named for the statements. *)
Section Stages.

Variables (w : World) (dom : Layout) (st : State).

(** The result of the scan loop (lines 262-291). *)
Definition found : Region :=
  scan (getImageData (canvas st)) (canvas st) (rect dom) (random w).

(** The bounds after their conversion to display space (lines 303-306). *)
Definition displayMinX : Q :=
  toDisplay (minX found) (DOMRect.width (rect dom)) (Canvas.width (canvas st)).
Definition displayMinY : Q :=
  toDisplay (minY found) (DOMRect.height (rect dom)) (Canvas.height (canvas st)).
Definition displayMaxX : Q :=
  toDisplay (maxX found) (DOMRect.width (rect dom)) (Canvas.width (canvas st)).
Definition displayMaxY : Q :=
  toDisplay (maxY found) (DOMRect.height (rect dom)) (Canvas.height (canvas st)).

(** The path and the overlay after [ctx.rect(...); ctx.stroke()]
    (lines 301-308). *)
Definition outlinedPath : list Subpath :=
  path st ++ [Rect displayMinX displayMinY
                   (displayMaxX - displayMinX) (displayMaxY - displayMinY)].

Definition outlinedOverlay : Canvas.t :=
  stroke source_over false cyan 2 (dpr st) outlinedPath (canvas st).

Definition afterOutline : State := set_canvas outlinedOverlay outlinedPath st.

(** The crop canvas after [croppedCtx.drawImage] (lines 310-324). *)
Definition croppedCanvas : Canvas.t :=
  let cw := inject_Z (Z.of_nat (Canvas.width (canvas st))) in
  let ch := inject_Z (Z.of_nat (Canvas.height (canvas st))) in
  let rw := DOMRect.width (rect dom) in
  let rh := DOMRect.height (rect dom) in
  drawImage outlinedOverlay
    (displayMinX * (cw / rw)) (displayMinY * (ch / rh))
    ((displayMaxX - displayMinX) * (cw / rw)) ((displayMaxY - displayMinY) * (ch / rh))
    0 0
    ((displayMaxX - displayMinX) * (cw / rw)) ((displayMaxY - displayMinY) * (ch / rh))
    (Canvas.blank (reflectDimension 300 (displayMaxX - displayMinX))
                  (reflectDimension 150 (displayMaxY - displayMinY))).

(** The values appended as [x] and [y] (lines 342-343). *)
Definition sourceX : Z :=
  Math.round (displayMinX * (inject_Z (naturalWidth dom) / DOMRect.width (rect dom))).
Definition sourceY : Z :=
  Math.round (displayMinY * (inject_Z (naturalHeight dom) / DOMRect.height (rect dom))).

(** The body sent to [/apply_fracture]. *)
Definition directForm (image blob : Blob) : FormData.t :=
  [("image_file", file image "image.png");
   ("scale", text "1.0");
   ("noise", text "10");
   ("overlay_file", file blob "overlay.png");
   ("x", text (toString sourceX));
   ("y", text (toString sourceY))].

(** The body sent to [/apply_fracture_queue]. *)
Definition queuedForm (blob : Blob) : FormData.t :=
  let splitUrl := split (imageSrc st) "/" in
  [("scale", text "1.0");
   ("noise", text "10");
   ("overlay_file", file blob "overlay.png");
   ("x", text (toString sourceX));
   ("y", text (toString sourceY));
   ("choice", stringify (fst (pop splitUrl)));
   ("job_id", stringify (fst (pop (snd (pop splitUrl)))))].

Definition endpoint : string :=
  match submissionMode w st with
  | queued => PUBLIC_BACKEND_URL w ++ "/apply_fracture_queue"
  | direct => PUBLIC_BACKEND_URL w ++ "/apply_fracture"
  end.

(** The request of this run, once the image and the blob are there. *)
Definition request (image blob : Blob) : Effect :=
  POST endpoint
       (match submissionMode w st with
        | queued => queuedForm blob
        | direct => directForm image blob
        end)
       (bearer (session w)).

(** The state a successful response leaves. *)
Definition afterSuccess : State :=
  match submissionMode w st with
  | queued => set_src (src st ++ "?t=" ++ toString (now w)) afterOutline
  | direct =>
      mkState (objectURL w) (src st) (Canvas.clearRect outlinedOverlay) outlinedPath
              (dpr st) (tool st) (brushColor st) (brushSize st) (drawing st)
              (lastX st) (lastY st) [] [] None (loading st)
  end.


Definition succeeded : Prop :=
  exists res, response w = Some res /\ ok res = true.

End Stages.

(** The display rectangle spans between 1 and 2^32 CSS pixels each way and
    the backing store has pixels: what [setCanvasSize] leaves. *)
Definition laidOut (dom : Layout) (st : State) : Prop :=
  (0 < Canvas.width (canvas st))%nat /\ (0 < Canvas.height (canvas st))%nat
  /\ (1 <= DOMRect.width (rect dom))%Q /\ (DOMRect.width (rect dom) < inject_Z (2 ^ 32))%Q
  /\ (1 <= DOMRect.height (rect dom))%Q /\ (DOMRect.height (rect dom) < inject_Z (2 ^ 32))%Q.

(** The backing store has the size that the display rectangle, scaled by
    [dpr], rounds to, which is how [setCanvasSize] sizes it. *)
Definition fits (dom : Layout) (st : State) : Prop :=
  Math.round (DOMRect.width (rect dom) * dpr st) = Z.of_nat (Canvas.width (canvas st))
  /\ Math.round (DOMRect.height (rect dom) * dpr st) = Z.of_nat (Canvas.height (canvas st)).



(** Concrete inputs for the examples. *)

(** A 4 x 4 overlay painted at its corners (0, 0) and (3, 3). *)
Definition twoCorners : Canvas.t :=
  Canvas.tabulate 4 4 (fun x y =>
    if ((x =? 0)%nat && (y =? 0)%nat) || ((x =? 3)%nat && (y =? 3)%nat)
    then [255; 71; 87; 255]%Z else [0; 0; 0; 0]%Z).

(** The overlay laid out at 4 x 4 CSS pixels with [dpr = 1] and at 2 x 2
    CSS pixels with [dpr = 2], over an image of 8 x 8 pixels. *)
Definition layout (cssW cssH : Q) : Layout :=
  {| rect := DOMRect.mk 0 0 cssW cssH; naturalWidth := 8; naturalHeight := 8 |}.

Definition editingAt (c : Canvas.t) (ratio : Q) (image : string) : State :=
  mkState image image c [] ratio brush defaultBrush 14%Q false 0%Q 0%Q [] [] None [].

Definition world (answer : option Response) : World :=
  {| PUBLIC_BACKEND_URL := "http://backend:8000";
     fetched := Some (bytes [137; 80; 78; 71]%Z);
     random := fun _ => 0%Q;
     encoded := true;
     response := answer;
     now := 1700000000000%Z;
     objectURL := "blob:http://localhost/0001";
     session := Some "token" |}.

Definition accepted : Response := {| ok := true; body := bytes [137; 80; 78; 71]%Z |}.

Definition fresh : string := "blob:http://localhost/capture".
Definition queuedResult : string := "http://backend:8000/results/7/1".

(** Pointer presses at the CSS point (1, 1) with a given button code. *)
Definition press (code : Z) : PointerEvent :=
  {| button := code; clientX := 1; clientY := 1; pressure := 1 # 2 |}.

(** The bitmap sent as [overlay_file], if a request was made. *)
Definition overlayFile (fx : list Effect) : option Canvas.t :=
  match fx with
  | [_; _; POST _ body _] =>
      match FormData.getAll "overlay_file" body with
      | [file (pngBlob c) _] => Some c
      | _ => None
      end
  | _ => None
  end.

(* ================================================================== *)
(** * Sizing, resizing and the keyboard *)

Definition set_dpr (d : Q) (st : State) : State :=
  mkState (imageSrc st) (src st) (canvas st) (path st) d (tool st)
          (brushColor st) (brushSize st) (drawing st) (lastX st) (lastY st)
          (undoStack st) (redoStack st) (overlayDataUrl st) (loading st).

Definition set_tool (t : Tool) (st : State) : State :=
  mkState (imageSrc st) (src st) (canvas st) (path st) (dpr st) t
          (brushColor st) (brushSize st) (drawing st) (lastX st) (lastY st)
          (undoStack st) (redoStack st) (overlayDataUrl st) (loading st).

(** An image that [setCanvasSize] or [onWindowResize] has started to load
    in order to draw it on the overlay: at the CSS size computed when the
    load was started, or at the size of the canvas rectangle read when the
    load ends. *)
Inductive Redraw : Type :=
| atCssSize (url : DataURL) (cssW cssH : Q)
| atRect (url : DataURL).

(** What [setCanvasSize] leaves: the state, the CSS size written to the
    [style] of both canvases, and the image it started to load. *)
Record Sized : Type := {
  sized : State;
  styleWidth : Q;
  styleHeight : Q;
  redraws : list Redraw
}.

(** [window.devicePixelRatio || 1]. *)
Definition orOne (devicePixelRatio : Q) : Q :=
  if Qeq_bool devicePixelRatio 0 then 1%Q else devicePixelRatio.

(** [bound] tells whether [imgEl] and [canvas] are bound (the editing
    surface is open); [imgRect] is [imgEl.getBoundingClientRect()].
    Assigning [canvas.width] or [canvas.height] clears the backing store
    and resets the context, its current path included. *)
Definition setCanvasSize (bound : bool) (imgRect : DOMRect.t)
    (devicePixelRatio : Q) (st : State) : option Sized :=
  if negb bound then None else
  let cssW := Math.max 1 (inject_Z (Math.round (DOMRect.width imgRect))) in
  let cssH := Math.max 1 (inject_Z (Math.round (DOMRect.height imgRect))) in
  (* backing store (device pixels) for crisp lines *)
  let dpr := Math.max 1 (orOne devicePixelRatio) in
  let canvas :=
    Canvas.blank (reflectDimension 300 (inject_Z (Math.round (cssW * dpr))))
                 (reflectDimension 150 (inject_Z (Math.round (cssH * dpr)))) in
  Some {| sized := set_dpr dpr (set_canvas canvas [] st);
          styleWidth := cssW;
          styleHeight := cssH;
          (* restore overlay if we had one *)
          redraws := match overlayDataUrl st with
                     | Some url => [atCssSize url cssW cssH]
                     | None => []
                     end |}.

Definition onImageLoad (bound : bool) (imgRect : DOMRect.t)
    (devicePixelRatio : Q) (st : State) : State * list Redraw :=
  let '(st, started) :=
    match setCanvasSize bound imgRect devicePixelRatio st with
    | Some r => (sized r, redraws r)
    | None => (st, [])
    end in
  (* reset overlay for new image *)
  (set_overlayDataUrl None (set_stacks [] [] st), started).

(** [canvas?.toDataURL('image/png')] inside [try]: no snapshot without a
    canvas or when the call throws ([ok = false]). *)
Definition onWindowResize (bound : bool) (imgRect : DOMRect.t)
    (devicePixelRatio : Q) (ok : bool) (st : State) : State * list Redraw :=
  (* Capture current overlay, resize, then redraw *)
  let snapshot := if bound then toDataURL ok (canvas st) else None in
  let '(st, started) :=
    match setCanvasSize bound imgRect devicePixelRatio st with
    | Some r => (sized r, redraws r)
    | None => (st, [])
    end in
  match snapshot with
  | Some url => (set_overlayDataUrl (Some url) st, started ++ [atRect url])
  | None => (st, started)
  end.

Record KeyboardEvent : Type := {
  ctrlKey : bool;
  metaKey : bool;
  shiftKey : bool;
  key : string
}.

(** [toLowerCase] on the letters A-Z.  No character outside ASCII lowers
    to one of the letters the handler compares with. *)
Definition lower (c : ascii) : ascii :=
  let n := nat_of_ascii c in
  if (65 <=? n)%nat && (n <=? 90)%nat then ascii_of_nat (n + 32) else c.

Fixpoint toLowerCase (s : string) : string :=
  match s with
  | EmptyString => EmptyString
  | String c s' => String (lower c) (toLowerCase s')
  end.

(** The handler of [keydown] on the window; [active] is the flag that
    shows the editing surface, [ok] the snapshot of an undo or redo. *)
Definition keyHandler (e : KeyboardEvent) (ok : bool) (st : State) (active : bool)
    : State * bool :=
  let k := toLowerCase (key e) in
  if (ctrlKey e || metaKey e) && negb (shiftKey e) && String.eqb k "z" then
    (undo ok st, active)
  else if (ctrlKey e || metaKey e) && shiftKey e && String.eqb k "z" then
    (redo ok st, active)
  else if String.eqb k "b" then (set_tool brush st, active)
  else if String.eqb k "e" then (set_tool eraser st, active)
  else if String.eqb k "escape" then (st, false)
  else (st, active).

(* ------------------------------------------------------------------ *)
(** ** Vocabulary of the further statements *)

(** What the pointer does after a press: it moves, or it is lifted or
    leaves the canvas ([onpointerup] and [onpointerleave] share
    [onPointerUp]). *)
Inductive PointerInput : Type :=
| moved (e : PointerEvent)
| lifted (ok : bool).

Definition track (dom : Layout) (st : State) (i : PointerInput) : State :=
  match i with
  | moved e => onPointerMove dom e st
  | lifted ok => onPointerUp ok st
  end.

(** [segments.join(sep)]. *)
Fixpoint join (sep : ascii) (segments : list string) : string :=
  match segments with
  | [] => ""
  | [s] => s
  | s :: rest => s ++ String sep (join sep rest)
  end.

(** Does the character occur in the string? *)
Fixpoint occurs (c : ascii) (s : string) : bool :=
  match s with
  | EmptyString => false
  | String a s' => Ascii.eqb a c || occurs c s'
  end.

(** The pixel a stroke writes where it covers. *)
Definition ink (op : CompositeOperation) (strokeStyle : Color) : list Z :=
  match op with
  | source_over => let '(r, g, b) := strokeStyle in [r; g; b; 255%Z]
  | destination_out => [0; 0; 0; 0]%Z
  end.

(** Is the device pixel at column [x], row [y] covered by the stroke of
    [path]? *)
Definition covered (round : bool) (lineWidth dpr : Q) (path : list Subpath)
    (x y : nat) : bool :=
  existsb (fun p => subpathCovers round (lineWidth / 2) p
                      ((inject_Z (Z.of_nat x) + (1 # 2)) / dpr)
                      ((inject_Z (Z.of_nat y) + (1 # 2)) / dpr)) path.


(** The seed that the scan pushes for the pixel at column [x], row [y]:
    its position in display space. *)
Definition seedOf (c : Canvas.t) (rect : DOMRect.t) (x y : nat) : Q * Q :=
  ((inject_Z (Z.of_nat x)
     * (DOMRect.width rect / inject_Z (Z.of_nat (Canvas.width c))))%Q,
   (inject_Z (Z.of_nat y)
     * (DOMRect.height rect / inject_Z (Z.of_nat (Canvas.height c))))%Q).

(** The painted pixels in scan order. *)
Definition paintedPixels (c : Canvas.t) : list (nat * nat) :=
  filter (fun p => (0 <? alphaAt c (snd p) (fst p))%Z) (scanOrder c).

(** One call of a handler of the component, with what the document and
    the world answer during it. *)
Inductive Handler : Type :=
| PointerDown (dom : Layout) (e : PointerEvent) (ok : bool)
| PointerMove (dom : Layout) (e : PointerEvent)
| PointerUp (ok : bool)
| ClearCanvas (ok ok' : bool)
| Undo (ok : bool)
| Redo (ok : bool)
| ImageLoaded (dom : Layout) (ok : bool)
| BreakBones (w : World) (dom : Layout)
| KeyDown (e : KeyboardEvent) (ok : bool) (active : bool).

Definition handle (st : State) (h : Handler) : State :=
  match h with
  | PointerDown dom e ok => onPointerDown dom e ok st
  | PointerMove dom e => onPointerMove dom e st
  | PointerUp ok => onPointerUp ok st
  | ClearCanvas ok ok' => clearCanvas ok ok' st
  | Undo ok => undo ok st
  | Redo ok => redo ok st
  | ImageLoaded dom ok => onload dom ok st
  | BreakBones w dom => fst (breakBones w dom st)
  | KeyDown e ok active => fst (keyHandler e ok st active)
  end.

(** What the handlers keep of the overlay: the size of its store, the
    pixel ratio and the well-formedness of the store. *)
Definition kept (st st' : State) : Prop :=
  Canvas.width (canvas st') = Canvas.width (canvas st)
  /\ Canvas.height (canvas st') = Canvas.height (canvas st)
  /\ dpr st' = dpr st
  /\ (Canvas.wf (canvas st) -> Canvas.wf (canvas st')).

(** Does the call record a change in the history: a press that is not
    ignored or a clear, with a snapshot that succeeds? *)
Definition records (h : Handler) : bool :=
  match h with
  | PointerDown _ e ok => ok && negb ((button e =? 1)%Z || (button e =? 2)%Z)
  | ClearCanvas ok _ => ok
  | _ => false
  end.

(** The calls of drawing: presses and clears whose snapshot succeeds (or
    that are ignored), moves and lifts. *)
Definition draws (h : Handler) : Prop :=
  match h with
  | PointerDown _ e ok => ok = true \/ button e = 1%Z \/ button e = 2%Z
  | ClearCanvas ok _ => ok = true
  | PointerMove _ _ | PointerUp _ => True
  | _ => False
  end.

(** The calls that walk the history: undos, redos, the image loads they
    cause and keys. *)
Definition walks (h : Handler) : Prop :=
  match h with
  | Undo _ | Redo _ | ImageLoaded _ _ | KeyDown _ _ _ => True
  | _ => False
  end.

(* ================================================================== *)
(* Theorems                                                           *)
(* ================================================================== *)


(* ================================================================== *)
(** * The region scan *)

Section Scan.

Variables (c : Canvas.t) (rect : DOMRect.t) (random : nat -> Q).

Lemma scanRow_as_fold : forall y xs r,
  fold_left (fun r x => scanPixel (getImageData c) c rect random y x r) xs r
  = fold_left (scanStep c rect random) (map (pair y) xs) r.
Proof.
  intros y xs. induction xs as [|x xs IH]; intros r; simpl; [reflexivity | apply IH].
Qed.

Lemma scan_as_one_loop :
  scan (getImageData c) c rect random
  = fold_left (scanStep c rect random) (scanOrder c)
      (mkRegion (Z.of_nat (Canvas.width c)) (Z.of_nat (Canvas.height c)) 0 0 0 []).
Proof.
  unfold scan, scanOrder.
  generalize (mkRegion (Z.of_nat (Canvas.width c)) (Z.of_nat (Canvas.height c)) 0 0 0 []).
  induction (seq 0 (Canvas.height c)) as [|y ys IH]; intros r; simpl; [reflexivity|].
  rewrite fold_left_app, IH. f_equal. apply scanRow_as_fold.
Qed.

Lemma in_scanOrder : forall x y,
  In (y, x) (scanOrder c) <-> x < Canvas.width c /\ y < Canvas.height c.
Proof.
  intros x y. unfold scanOrder. rewrite in_flat_map. split.
  - intros [y' [Hy Hin]]. apply in_map_iff in Hin as [x' [Heq Hx]].
    inversion Heq; subst. apply in_seq in Hy, Hx. lia.
  - intros [Hx Hy]. exists y. split; [apply in_seq; lia|].
    apply in_map_iff. exists x. split; [reflexivity | apply in_seq; lia].
Qed.

Lemma step_unpainted : forall r x y,
  ~ painted c x y -> (scanStep c rect random) r (y, x) = r.
Proof.
  intros r x y H. unfold scanStep, painted in *. cbn [fst snd]. unfold scanPixel.
  fold (alphaAt c x y).
  destruct (Z.ltb_spec 0 (alphaAt c x y)); [contradiction | reflexivity].
Qed.

Lemma step_painted : forall r x y,
  painted c x y ->
  minX (scanStep c rect random r (y, x)) = Z.min (Z.of_nat x) (minX r) /\
  minY (scanStep c rect random r (y, x)) = Z.min (Z.of_nat y) (minY r) /\
  maxX (scanStep c rect random r (y, x)) = Z.max (Z.of_nat x) (maxX r) /\
  maxY (scanStep c rect random r (y, x)) = Z.max (Z.of_nat y) (maxY r) /\
  count (scanStep c rect random r (y, x)) = S (count r).
Proof.
  intros r x y H. unfold scanStep, painted in *. cbn [fst snd]. unfold scanPixel.
  fold (alphaAt c x y).
  destruct (Z.ltb_spec 0 (alphaAt c x y)); [|lia].
  cbn [minX minY maxX maxY count].
  repeat match goal with |- context [Z.ltb ?a ?b] => destruct (Z.ltb_spec a b) end;
    repeat split; lia.
Qed.

End Scan.

Section ScanInvariant.

Variables (c : Canvas.t) (rect : DOMRect.t) (random : nat -> Q).

Lemma scan_invariant : forall l r0, ScanInv c l r0 (fold_left (scanStep c rect random) l r0).
Proof.
  induction l as [|[y x] l IH]; intros r0.
  - simpl. constructor; auto; try lia. intros ? ? [].
  - simpl fold_left. specialize (IH (scanStep c rect random r0 (y, x))).
    destruct IH as [G C MX MY XX XY CNT].
    assert (Hstep : (painted c x y /\
               minX (scanStep c rect random r0 (y, x)) = Z.min (Z.of_nat x) (minX r0) /\
               minY (scanStep c rect random r0 (y, x)) = Z.min (Z.of_nat y) (minY r0) /\
               maxX (scanStep c rect random r0 (y, x)) = Z.max (Z.of_nat x) (maxX r0) /\
               maxY (scanStep c rect random r0 (y, x)) = Z.max (Z.of_nat y) (maxY r0) /\
               count (scanStep c rect random r0 (y, x)) = S (count r0))
             \/ (~ painted c x y /\ (scanStep c rect random) r0 (y, x) = r0)).
    { destruct (Z.ltb_spec 0 (alphaAt c x y)) as [Hp|Hn].
      - left. split; [exact Hp|]. apply (step_painted c rect random r0 x y Hp).
      - right. split; [unfold painted; lia|].
        apply (step_unpainted c rect random). unfold painted; lia. }
    destruct Hstep as [[Hp [E1 [E2 [E3 E4]]]] | [Hn E]].
    + destruct E4 as [E4 E5].
      constructor.
      * lia.
      * intros x' y' [Heq | Hin] Hp'.
        -- inversion Heq; subst. unfold inBox. lia.
        -- apply C; assumption.
      * destruct MX as [MX | [y' [Hin [Hp' Hnn]]]].
        -- rewrite MX, E1. destruct (Z.min_spec (Z.of_nat x) (minX r0)) as [[_ Hm]|[_ Hm]]; rewrite Hm.
           ++ right. exists y. rewrite Nat2Z.id. split; [left; reflexivity|]. split; [exact Hp | lia].
           ++ left; reflexivity.
        -- right. exists y'. split; [right; exact Hin | split; assumption].
      * destruct MY as [MY | [x' [Hin [Hp' Hnn]]]].
        -- rewrite MY, E2. destruct (Z.min_spec (Z.of_nat y) (minY r0)) as [[_ Hm]|[_ Hm]]; rewrite Hm.
           ++ right. exists x. rewrite Nat2Z.id. split; [left; reflexivity|]. split; [exact Hp | lia].
           ++ left; reflexivity.
        -- right. exists x'. split; [right; exact Hin | split; assumption].
      * destruct XX as [XX | [y' [Hin [Hp' Hnn]]]].
        -- rewrite XX, E3. destruct (Z.max_spec (Z.of_nat x) (maxX r0)) as [[_ Hm]|[_ Hm]]; rewrite Hm.
           ++ left; reflexivity.
           ++ right. exists y. rewrite Nat2Z.id. split; [left; reflexivity|]. split; [exact Hp | lia].
        -- right. exists y'. split; [right; exact Hin | split; assumption].
      * destruct XY as [XY | [x' [Hin [Hp' Hnn]]]].
        -- rewrite XY, E4. destruct (Z.max_spec (Z.of_nat y) (maxY r0)) as [[_ Hm]|[_ Hm]]; rewrite Hm.
           ++ left; reflexivity.
           ++ right. exists x. rewrite Nat2Z.id. split; [left; reflexivity|]. split; [exact Hp | lia].
        -- right. exists x'. split; [right; exact Hin | split; assumption].
      * rewrite CNT, E5. simpl. unfold painted in Hp.
        destruct (Z.ltb_spec 0 (alphaAt c x y)); [simpl; lia | lia].
    + rewrite E in *. constructor; auto.
      * intros x' y' [Heq | Hin] Hp'.
        -- inversion Heq; subst. contradiction.
        -- apply C; assumption.
      * destruct MX as [MX | [y' [Hin H]]]; [left; exact MX | right; exists y'; split; [right; exact Hin | exact H]].
      * destruct MY as [MY | [y' [Hin H]]]; [left; exact MY | right; exists y'; split; [right; exact Hin | exact H]].
      * destruct XX as [XX | [y' [Hin H]]]; [left; exact XX | right; exists y'; split; [right; exact Hin | exact H]].
      * destruct XY as [XY | [y' [Hin H]]]; [left; exact XY | right; exists y'; split; [right; exact Hin | exact H]].
      * rewrite CNT. simpl. unfold painted in Hn.
        destruct (Z.ltb_spec 0 (alphaAt c x y)); [contradiction | reflexivity].
Qed.

End ScanInvariant.

Lemma scan_spec : forall c rect random,
  ScanInv c (scanOrder c)
    (mkRegion (Z.of_nat (Canvas.width c)) (Z.of_nat (Canvas.height c)) 0 0 0 [])
    (scan (getImageData c) c rect random).
Proof.
  intros. rewrite scan_as_one_loop. apply scan_invariant.
Qed.

(** A scan that counts nothing leaves the four bounds at their initial
    values. *)
Lemma scan_nothing : forall c rect random,
  count (scan (getImageData c) c rect random) = 0 ->
  let r := scan (getImageData c) c rect random in
  minX r = Z.of_nat (Canvas.width c) /\ minY r = Z.of_nat (Canvas.height c) /\
  maxX r = 0%Z /\ maxY r = 0%Z.
Proof.
  intros c rect random H r. subst r.
  destruct (scan_spec c rect random) as [_ _ MX MY XX XY CNT].
  rewrite H in CNT. cbn [count] in CNT.
  assert (Hno : forall x y, In (y, x) (scanOrder c) -> ~ painted c x y).
  { intros x y Hin Hp.
    assert (In (y, x) (filter (fun p => (0 <? alphaAt c (snd p) (fst p))%Z) (scanOrder c))).
    { apply filter_In. split; [exact Hin|]. cbn [fst snd]. apply Z.ltb_lt. exact Hp. }
    destruct (filter (fun p => (0 <? alphaAt c (snd p) (fst p))%Z) (scanOrder c));
      [contradiction | discriminate]. }
  cbn [minX minY maxX maxY] in *.
  repeat split.
  - destruct MX as [E | [y [Hin [Hp _]]]]; [exact E | exfalso; eapply Hno; eauto].
  - destruct MY as [E | [y [Hin [Hp _]]]]; [exact E | exfalso; eapply Hno; eauto].
  - destruct XX as [E | [y [Hin [Hp _]]]]; [exact E | exfalso; eapply Hno; eauto].
  - destruct XY as [E | [y [Hin [Hp _]]]]; [exact E | exfalso; eapply Hno; eauto].
Qed.

(** C8.  The region scan of [breakBones] returns a bounding box of the
    painted pixels (alpha > 0): every painted pixel lies within the four
    bounds; when some pixel is painted each bound is the coordinate of a
    painted pixel, so that none can be tightened; and on an overlay whose
    only painted pixel is [(px, py)] the bounds are [(px, py, px, py)]. *)
Theorem scan_bounding_box : forall c rect random,
  let r := scan (getImageData c) c rect random in
  let W := Canvas.width c in
  let H := Canvas.height c in
  (forall x y, x < W -> y < H -> painted c x y -> inBox r x y)
  /\
  (forall x y, x < W -> y < H -> painted c x y ->
     (exists x' y', x' < W /\ y' < H /\ painted c x' y' /\ minX r = Z.of_nat x') /\
     (exists x' y', x' < W /\ y' < H /\ painted c x' y' /\ minY r = Z.of_nat y') /\
     (exists x' y', x' < W /\ y' < H /\ painted c x' y' /\ maxX r = Z.of_nat x') /\
     (exists x' y', x' < W /\ y' < H /\ painted c x' y' /\ maxY r = Z.of_nat y'))
  /\
  (forall px py, px < W -> py < H -> painted c px py ->
     (forall x y, x < W -> y < H -> painted c x y -> x = px /\ y = py) ->
     (minX r, minY r, maxX r, maxY r)
     = (Z.of_nat px, Z.of_nat py, Z.of_nat px, Z.of_nat py)).
Proof.
  intros c rect random r W H.
  destruct (scan_spec c rect random) as [_ C MX MY XX XY _].
  fold r in C, MX, MY, XX, XY. cbn [minX minY maxX maxY] in MX, MY, XX, XY.
  assert (Hcov : forall x y, x < W -> y < H -> painted c x y -> inBox r x y).
  { intros x y Hx Hy Hp. apply C; [apply in_scanOrder; split; assumption | exact Hp]. }
  assert (Htight : forall x y, x < W -> y < H -> painted c x y ->
     (exists x' y', x' < W /\ y' < H /\ painted c x' y' /\ minX r = Z.of_nat x') /\
     (exists x' y', x' < W /\ y' < H /\ painted c x' y' /\ minY r = Z.of_nat y') /\
     (exists x' y', x' < W /\ y' < H /\ painted c x' y' /\ maxX r = Z.of_nat x') /\
     (exists x' y', x' < W /\ y' < H /\ painted c x' y' /\ maxY r = Z.of_nat y')).
  { intros x y Hx Hy Hp. destruct (Hcov x y Hx Hy Hp) as [[B1 B2] [B3 B4]].
    repeat split.
    - destruct MX as [E | [y' [Hin [Hp' Hnn]]]]; [fold W in E; lia|].
      apply in_scanOrder in Hin. exists (Z.to_nat (minX r)), y'.
      rewrite Z2Nat.id by exact Hnn. tauto.
    - destruct MY as [E | [x' [Hin [Hp' Hnn]]]]; [fold H in E; lia|].
      apply in_scanOrder in Hin. exists x', (Z.to_nat (minY r)).
      rewrite Z2Nat.id by exact Hnn. tauto.
    - destruct XX as [E | [y' [Hin [Hp' Hnn]]]].
      + assert (x = 0) by lia. subst x. exists 0, y. rewrite E. simpl. tauto.
      + apply in_scanOrder in Hin. exists (Z.to_nat (maxX r)), y'.
        rewrite Z2Nat.id by exact Hnn. tauto.
    - destruct XY as [E | [x' [Hin [Hp' Hnn]]]].
      + assert (y = 0) by lia. subst y. exists x, 0. rewrite E. simpl. tauto.
      + apply in_scanOrder in Hin. exists x', (Z.to_nat (maxY r)).
        rewrite Z2Nat.id by exact Hnn. tauto. }
  split; [exact Hcov|]. split; [exact Htight|].
  intros px py Hx Hy Hp Honly.
  destruct (Htight px py Hx Hy Hp)
    as [[x1 [y1 [L1 [L1' [P1 E1]]]]] [[x2 [y2 [L2 [L2' [P2 E2]]]]]
        [[x3 [y3 [L3 [L3' [P3 E3]]]]] [x4 [y4 [L4 [L4' [P4 E4]]]]]]]].
  apply Honly in P1, P2, P3, P4; try assumption.
  destruct P1 as [P1 _], P2 as [_ P2], P3 as [P3 _], P4 as [_ P4].
  subst. rewrite E1, E2, E3, E4. reflexivity.
Qed.

Lemma scan_bounding_box_witness :
  let r := scan (getImageData onePixel) onePixel (DOMRect.mk 0 0 3 2) (fun _ => 0%Q) in
  (minX r, minY r, maxX r, maxY r) = (1, 1, 1, 1)%Z.
Proof.
  apply (proj2 (proj2 (scan_bounding_box onePixel (DOMRect.mk 0 0 3 2) (fun _ => 0%Q))) 1 1).
  - simpl; lia.
  - simpl; lia.
  - unfold painted; vm_compute; reflexivity.
  - intros x y Hx Hy. simpl in Hx, Hy. unfold painted.
    destruct x as [|[|[|x]]]; destruct y as [|[|y]]; try lia; vm_compute; intros; try discriminate; split; reflexivity.
Defined.

(* ================================================================== *)
(** * History *)

Lemma pop_snoc : forall (A : Type) (l : list A) (x : A), pop (l ++ [x]) = (Some x, l).
Proof.
  intros. unfold pop. rewrite rev_app_distr. simpl. rewrite rev_involutive. reflexivity.
Qed.

Lemma pop_spec : forall (A : Type) (l : list A),
  (l = [] /\ pop l = (None, [])) \/ (exists l' x, l = l' ++ [x] /\ pop l = (Some x, l')).
Proof.
  intros A l. destruct l as [|a l] using rev_ind.
  - left. split; reflexivity.
  - right. exists l, a. split; [reflexivity | apply pop_snoc].
Qed.

Lemma pushUndo_stacks : forall ok st,
  pushUndo ok st =
  if ok then
    set_stacks (if (25 <? List.length (undoStack st ++ [png (canvas st)]))%nat
                then tl (undoStack st ++ [png (canvas st)])
                else undoStack st ++ [png (canvas st)]) [] st
  else st.
Proof. intros [] st; reflexivity. Qed.

Lemma undo_stacks : forall ok st,
  (undo ok st = st) \/
  (exists u last, undoStack st = u ++ [last] /\
     undoStack (undo ok st) = u /\
     redoStack (undo ok st) = redoStack st ++ [png (canvas st)] /\
     canvas (undo ok st) = canvas st /\
     loading (undo ok st) = loading st ++ [last]).
Proof.
  intros ok st. unfold undo.
  destruct (Nat.eqb_spec (List.length (undoStack st)) 0); [left; reflexivity|].
  destruct ok; [|left; reflexivity]. cbn [toDataURL].
  destruct (pop_spec _ (undoStack st)) as [[E _] | [u [x [E P]]]].
  - rewrite E in n. simpl in n. contradiction.
  - rewrite P. right. exists u, x. repeat split; assumption || reflexivity.
Qed.

Lemma redo_stacks : forall ok st,
  (redo ok st = st) \/
  (exists r next, redoStack st = r ++ [next] /\
     redoStack (redo ok st) = r /\
     undoStack (redo ok st) = undoStack st ++ [png (canvas st)] /\
     canvas (redo ok st) = canvas st /\
     loading (redo ok st) = loading st ++ [next]).
Proof.
  intros ok st. unfold redo.
  destruct (Nat.eqb_spec (List.length (redoStack st)) 0); [left; reflexivity|].
  destruct ok; [|left; reflexivity]. cbn [toDataURL].
  destruct (pop_spec _ (redoStack st)) as [[E _] | [u [x [E P]]]].
  - rewrite E in n. simpl in n. contradiction.
  - rewrite P. right. exists u, x. repeat split; assumption || reflexivity.
Qed.

Lemma onload_stacks : forall dom ok st,
  undoStack (onload dom ok st) = undoStack st /\
  redoStack (onload dom ok st) = redoStack st.
Proof.
  intros dom ok st. unfold onload. destruct (loading st) as [|[img] rest]; [tauto|].
  destruct ok; split; reflexivity.
Qed.

Lemma breakBones_stacks : forall w dom st,
  (undoStack (fst (breakBones w dom st)) = undoStack st /\
   redoStack (fst (breakBones w dom st)) = redoStack st) \/
  (undoStack (fst (breakBones w dom st)) = [] /\
   redoStack (fst (breakBones w dom st)) = []).
Proof.
  intros w dom st. unfold breakBones.
  destruct (fetched w); [|left; split; reflexivity].
  destruct (toBlob _ _); [|left; split; reflexivity].
  destruct (submissionMode _ _).
  - destruct (response w) as [res|]; [|left; split; reflexivity].
    destruct (ok res); [right | left]; split; reflexivity.
  - destruct (pop _) as [choice rest]. destruct (pop rest) as [job rest'].
    destruct (response w) as [res|]; [|left; split; reflexivity].
    destruct (ok res); left; split; reflexivity.
Qed.

Lemma pushUndo_budget : forall ok st,
  List.length (undoStack st) + List.length (redoStack st) <= 25 ->
  List.length (undoStack (pushUndo ok st)) + List.length (redoStack (pushUndo ok st)) <= 25.
Proof.
  intros ok st B. rewrite pushUndo_stacks. destruct ok; [|exact B].
  cbn [undoStack redoStack set_stacks].
  destruct (Nat.ltb_spec 25 (List.length (undoStack st ++ [png (canvas st)]))) as [Hl|Hl].
  - destruct (undoStack st ++ [png (canvas st)]) eqn:E; simpl in *; [lia|].
    apply (f_equal (@List.length _)) in E. rewrite length_app in E. simpl in E. lia.
  - simpl. lia.
Qed.

(** Entries move between the two stacks or are dropped, never duplicated:
    together the stacks never hold more than 25 snapshots. *)
Lemma history_budget : forall st,
  reachable st -> List.length (undoStack st) + List.length (redoStack st) <= 25.
Proof.
  induction 1 as [st Hu Hr | dom e ok st _ IH | dom e st _ IH | ok st _ IH
                  | ok ok' st _ IH | ok st _ IH | ok st _ IH | dom ok st _ IH
                  | w dom st _ IH | st st' _ IH Hu Hr].
  - rewrite Hu, Hr. simpl. lia.
  - unfold onPointerDown. destruct (_ || _); [exact IH|].
    unfold drawPoint, drawLine. cbn [undoStack redoStack set_canvas set_pointer].
    apply pushUndo_budget, IH.
  - unfold onPointerMove. destruct (negb _); exact IH.
  - unfold onPointerUp. destruct ok; exact IH.
  - unfold clearCanvas. pose proof (pushUndo_budget ok st IH) as Hp.
    destruct ok'; exact Hp.
  - destruct (undo_stacks ok st) as [E | [u [x [E [Eu [Er _]]]]]].
    + rewrite E. exact IH.
    + rewrite Eu, Er. rewrite E in IH. rewrite length_app in *. simpl in *. lia.
  - destruct (redo_stacks ok st) as [E | [u [x [E [Er [Eu _]]]]]].
    + rewrite E. exact IH.
    + rewrite Eu, Er. rewrite E in IH. rewrite length_app in *. simpl in *. lia.
  - destruct (onload_stacks dom ok st) as [Eu Er]. rewrite Eu, Er. exact IH.
  - destruct (breakBones_stacks w dom st) as [[Eu Er] | [Eu Er]]; rewrite Eu, Er;
      [exact IH | simpl; lia].
  - rewrite Hu, Hr. exact IH.
Qed.

(** C3.  [undoStack.length <= 25] is an invariant: in every reachable
    state, and after every history operation performed in one (a recorded
    change at a stroke start or a clear, an undo, a redo), the undo stack
    holds at most 25 entries. *)
Theorem undoStack_capacity : forall st,
  reachable st ->
  List.length (undoStack st) <= 25
  /\ (forall ok, List.length (undoStack (pushUndo ok st)) <= 25)
  /\ (forall dom e ok, List.length (undoStack (onPointerDown dom e ok st)) <= 25)
  /\ (forall ok ok', List.length (undoStack (clearCanvas ok ok' st)) <= 25)
  /\ (forall ok, List.length (undoStack (undo ok st)) <= 25)
  /\ (forall ok, List.length (undoStack (redo ok st)) <= 25).
Proof.
  intros st Hst.
  assert (B : forall s, reachable s -> List.length (undoStack s) <= 25).
  { intros s Hs. apply history_budget in Hs. lia. }
  split; [apply B; exact Hst|].
  split.
  { intros ok. pose proof (pushUndo_budget ok st (history_budget st Hst)). lia. }
  split; [intros; apply B; constructor; exact Hst|].
  split; [intros; apply B; constructor; exact Hst|].
  split; intros; apply B; constructor; exact Hst.
Qed.

Lemma undoStack_capacity_witness :
  List.length
    (undoStack (redo true (undo true (clearCanvas true true (editing onePixel [] [])))))
  <= 25.
Proof.
  apply (undoStack_capacity (undo true (clearCanvas true true (editing onePixel [] [])))).
  apply reach_undo, reach_clearCanvas, reach_start; reflexivity.
Defined.

(** [redo] itself has no cap: the bound of 25 rests on the budget shared by
    the two stacks, not on a check in [redo]. *)
Remark redo_has_no_cap :
  List.length (undoStack (redo true (editing onePixel (repeat (png onePixel) 25)
                                                     [png onePixel]))) = 26.
Proof. reflexivity. Qed.

Lemma pushUndo_undoStack_length : forall st,
  List.length (undoStack st) < 25 ->
  undoStack (pushUndo true st) = undoStack st ++ [png (canvas st)].
Proof.
  intros st H. rewrite pushUndo_stacks. cbn [undoStack set_stacks].
  destruct (Nat.ltb_spec 25 (List.length (undoStack st ++ [png (canvas st)]))) as [Hl|Hl];
    [|reflexivity].
  rewrite length_app in Hl. simpl in Hl. lia.
Qed.

Lemma pushUndo_evicts_oldest : forall st oldest rest,
  undoStack st = oldest :: rest ->
  25 <= List.length (undoStack st) ->
  undoStack (pushUndo true st) = rest ++ [png (canvas st)].
Proof.
  intros st oldest rest E H. rewrite pushUndo_stacks. cbn [undoStack set_stacks].
  destruct (Nat.ltb_spec 25 (List.length (undoStack st ++ [png (canvas st)]))) as [Hl|Hl].
  - rewrite E. reflexivity.
  - rewrite length_app in Hl. simpl in Hl. lia.
Qed.

(** C4, as the code has it.  A recorded change whose snapshot succeeds
    empties [redoStack] and appends the snapshot of the current overlay to
    [undoStack]; when that makes the stack exceed 25 entries exactly the
    oldest entry is dropped.  The same holds at a stroke start (a pointer
    press that is not ignored) and at a clear. *)
Theorem recordBeforeChange_success : forall st,
  let st' := pushUndo true st in
  redoStack st' = []
  /\ (List.length (undoStack st) < 25 ->
      undoStack st' = undoStack st ++ [png (canvas st)])
  /\ (forall oldest rest,
        undoStack st = oldest :: rest -> 25 <= List.length (undoStack st) ->
        undoStack st' = rest ++ [png (canvas st)])
  /\ (forall dom e, button e <> 1%Z -> button e <> 2%Z ->
        redoStack (onPointerDown dom e true st) = [] /\
        undoStack (onPointerDown dom e true st) = undoStack st')
  /\ (forall ok',
        redoStack (clearCanvas true ok' st) = [] /\
        undoStack (clearCanvas true ok' st) = undoStack st').
Proof.
  intros st st'. subst st'.
  split; [reflexivity|].
  split; [apply pushUndo_undoStack_length|].
  split; [apply pushUndo_evicts_oldest|].
  split.
  - intros dom e H1 H2. unfold onPointerDown.
    destruct (Z.eqb_spec (button e) 1); [contradiction|].
    destruct (Z.eqb_spec (button e) 2); [contradiction|].
    split; reflexivity.
  - intros ok'. unfold clearCanvas. destruct ok'; split; reflexivity.
Qed.

Lemma recordBeforeChange_success_witness :
  undoStack (pushUndo true (editing onePixel (repeat (png (Canvas.blank 3 2)) 25) [png onePixel]))
  = repeat (png (Canvas.blank 3 2)) 24 ++ [png onePixel].
Proof.
  apply (proj1 (proj2 (proj2 (recordBeforeChange_success
           (editing onePixel (repeat (png (Canvas.blank 3 2)) 25) [png onePixel]))))
           (png (Canvas.blank 3 2)) (repeat (png (Canvas.blank 3 2)) 24)).
  - reflexivity.
  - simpl. lia.
Defined.

(** C4, as stated, fails: when the snapshot cannot be taken the whole
    recording is skipped, and a redo entry that was there stays. *)
Lemma recordBeforeChange_failed_snapshot_keeps_redo :
  let st := undo true (clearCanvas true true (editing onePixel [] [])) in
  redoStack st = [png (Canvas.blank 3 2)]
  /\ redoStack (pushUndo false st) = [png (Canvas.blank 3 2)]
  /\ redoStack (pushUndo false st) <> [].
Proof.
  split; [reflexivity|]. split; [reflexivity|]. discriminate.
Qed.

(* ================================================================== *)
(** * Pointer input *)

(** C9, as the code has it.  A pointer press is ignored exactly when its
    button code is 1 (middle) or 2 (secondary); every other code, the
    primary button's 0 as well as 3, 4 or 5, records a history entry, enters
    the drawing state at the pointer position and draws a single point
    there. *)
Theorem onPointerDown_buttons : forall dom e ok st,
  ((button e = 1%Z \/ button e = 2%Z) -> onPointerDown dom e ok st = st)
  /\ (button e <> 1%Z -> button e <> 2%Z ->
      let p := pointerPos dom e in
      onPointerDown dom e ok st
      = drawPoint (fst p) (snd p) (effectivePressure e)
                  (set_pointer true (fst p) (snd p) (pushUndo ok st))
      /\ drawing (onPointerDown dom e ok st) = true
      /\ undoStack (onPointerDown dom e ok st) = undoStack (pushUndo ok st)
      /\ path (onPointerDown dom e ok st)
         = [Line (fst p) (snd p) (fst p) (snd p)]).
Proof.
  intros dom e ok st. unfold onPointerDown. split.
  - intros [H | H]; rewrite H; reflexivity.
  - intros H1 H2.
    destruct (Z.eqb_spec (button e) 1); [contradiction|].
    destruct (Z.eqb_spec (button e) 2); [contradiction|].
    repeat split; reflexivity.
Qed.

Lemma onPointerDown_buttons_witness :
  onPointerDown (layout 4 4) (press 2) true (editingAt twoCorners 1 fresh)
  = editingAt twoCorners 1 fresh
  /\ drawing (onPointerDown (layout 4 4) (press 0) true (editingAt twoCorners 1 fresh)) = true.
Proof.
  split.
  - apply (proj1 (onPointerDown_buttons (layout 4 4) (press 2) true
                    (editingAt twoCorners 1 fresh))).
    right. reflexivity.
  - apply (proj2 (onPointerDown_buttons (layout 4 4) (press 0) true
                    (editingAt twoCorners 1 fresh))); discriminate.
Defined.

(** C9, as stated, fails: a press of the fourth button (code 3, the
    "back" button of a mouse) is not ignored; it records a history entry,
    enters the drawing state and paints. *)
Lemma fourth_button_starts_stroke :
  let st := editingAt twoCorners 1 fresh in
  let st' := onPointerDown (layout 4 4) (press 3) true st in
  drawing st = false
  /\ drawing st' = true
  /\ undoStack st = []
  /\ undoStack st' = [png twoCorners]
  /\ Canvas.rgba (canvas st) 1 1 = [0; 0; 0; 0]%Z
  /\ Canvas.rgba (canvas st') 1 1 = [255; 71; 87; 255]%Z.
Proof.
  repeat split; vm_compute; reflexivity.
Qed.

(* ================================================================== *)
(** * Submission *)

(** One run of [breakBones], stage by stage. *)
Lemma breakBones_run : forall w dom st,
  breakBones w dom st =
  match fetched w with
  | None => (st, [GET (imageSrc st)])
  | Some image =>
      match toBlob (encoded w) (croppedCanvas w dom st) with
      | None =>
          (afterOutline w dom st,
           [GET (imageSrc st); explode (seeds (found w dom st))])
      | Some blob =>
          (match response w with
           | Some res => if ok res then afterSuccess w dom st else afterOutline w dom st
           | None => afterOutline w dom st
           end,
           [GET (imageSrc st); explode (seeds (found w dom st)); request w dom st image blob])
      end
  end.
Proof.
  intros w dom st. unfold breakBones.
  destruct (fetched w) as [image|]; [|reflexivity].
  fold (found w dom st).
  change (toDisplay (minX (found w dom st)) (DOMRect.width (rect dom)) (Canvas.width (canvas st)))
    with (displayMinX w dom st).
  change (toDisplay (minY (found w dom st)) (DOMRect.height (rect dom)) (Canvas.height (canvas st)))
    with (displayMinY w dom st).
  change (toDisplay (maxX (found w dom st)) (DOMRect.width (rect dom)) (Canvas.width (canvas st)))
    with (displayMaxX w dom st).
  change (toDisplay (maxY (found w dom st)) (DOMRect.height (rect dom)) (Canvas.height (canvas st)))
    with (displayMaxY w dom st).
  fold (outlinedPath w dom st). fold (outlinedOverlay w dom st).
  fold (croppedCanvas w dom st).
  destruct (toBlob (encoded w) (croppedCanvas w dom st)) as [blob|]; [|reflexivity].
  unfold request, endpoint, afterSuccess.
  change (submissionMode w (set_canvas (outlinedOverlay w dom st) (outlinedPath w dom st) st))
    with (submissionMode w st).
  destruct (submissionMode w st).
  - destruct (response w) as [res|]; [|reflexivity]. destruct (ok res); reflexivity.
  - cbn [imageSrc set_canvas].
    destruct (pop (split (imageSrc st) "/")) as [choice rest] eqn:E1.
    destruct (pop rest) as [job rest'] eqn:E2.
    unfold queuedForm. rewrite E1. cbn [fst snd]. rewrite E2. cbn [fst snd].
    destruct (response w) as [res|]; [|reflexivity]. destruct (ok res); reflexivity.
Qed.

Lemma prefix_spec : forall p s,
  prefix p s = true <-> exists t, s = (p ++ t)%string.
Proof.
  induction p as [|a p IH]; intros s.
  - destruct s; simpl; split; eauto.
  - destruct s as [|b s]; simpl.
    + split; [discriminate | intros [t H]; discriminate].
    + destruct (ascii_dec a b) as [->|Hne].
      * rewrite IH. split; intros [t H]; exists t; [rewrite H; reflexivity | congruence].
      * split; [discriminate | intros [t H]; congruence].
Qed.

(** [includes] is substring containment. *)
Lemma includes_spec : forall s sub,
  includes s sub = true <-> exists pre post, s = (pre ++ sub ++ post)%string.
Proof.
  induction s as [|a s IH]; intros sub.
  - cbn [includes]. destruct (prefix sub "") eqn:P.
    + split; [intros _ | reflexivity].
      apply prefix_spec in P as [t H]. exists "", t. exact H.
    + split; [discriminate|]. intros [pre [post H]].
      destruct pre; [|discriminate]. simpl in H.
      assert (prefix sub "" = true) by (apply prefix_spec; eauto). congruence.
  - cbn [includes]. destruct (prefix sub (String a s)) eqn:P.
    + split; [intros _ | reflexivity].
      apply prefix_spec in P as [t H]. exists "", t. exact H.
    + rewrite IH. split.
      * intros [pre [post H]]. exists (String a pre), post. rewrite H. reflexivity.
      * intros [pre [post H]]. destruct pre as [|b pre].
        -- simpl in H. assert (prefix sub (String a s) = true) by (apply prefix_spec; eauto).
           congruence.
        -- simpl in H. inversion H. exists pre, post. reflexivity.
Qed.

(** C10.  The mode is chosen by substring containment: the submission is
    queued exactly when [PUBLIC_BACKEND_URL] occurs somewhere inside
    [imageSrc] (at the start, in a path or in a query alike) and direct
    otherwise; the request of a run goes to the endpoint of that mode. *)
Theorem mode_by_containment : forall w dom st,
  (submissionMode w st = queued <->
     exists pre post, imageSrc st = (pre ++ PUBLIC_BACKEND_URL w ++ post)%string)
  /\ (submissionMode w st = direct <->
     ~ exists pre post, imageSrc st = (pre ++ PUBLIC_BACKEND_URL w ++ post)%string)
  /\ (forall url body auth,
        In (POST url body auth) (snd (breakBones w dom st)) ->
        url = (PUBLIC_BACKEND_URL w ++
               (if includes (imageSrc st) (PUBLIC_BACKEND_URL w)
                then "/apply_fracture_queue" else "/apply_fracture"))%string).
Proof.
  intros w dom st. unfold submissionMode. rewrite <- includes_spec.
  destruct (includes (imageSrc st) (PUBLIC_BACKEND_URL w)) eqn:I.
  - split; [tauto|]. split; [split; [discriminate | intros H; exfalso; apply H; reflexivity]|].
    intros url body auth H. rewrite breakBones_run in H.
    destruct (fetched w); [|simpl in H; destruct H as [H|[]]; discriminate].
    destruct (toBlob _ _); cbn [snd] in H; simpl in H;
      repeat (destruct H as [H|H]; try discriminate); try contradiction.
    unfold request, endpoint, submissionMode in H. rewrite I in H. inversion H. reflexivity.
  - split; [split; [discriminate | intros H; discriminate]|].
    split; [split; [intros _ H; discriminate | reflexivity]|].
    intros url body auth H. rewrite breakBones_run in H.
    destruct (fetched w); [|simpl in H; destruct H as [H|[]]; discriminate].
    destruct (toBlob _ _); cbn [snd] in H; simpl in H;
      repeat (destruct H as [H|H]; try discriminate); try contradiction.
    unfold request, endpoint, submissionMode in H. rewrite I in H. inversion H. reflexivity.
Qed.

(** A run on a concrete input that reaches the network: its third effect
    is the request. *)
Ltac third_effect :=
  vm_compute; do 3 eexists; right; right; left; reflexivity.

Lemma mode_by_containment_witness :
  submissionMode (world None)
    (editingAt onePixel 1 "http://cdn/proxy?u=http://backend:8000/results/7/1") = queued
  /\ exists url body auth,
       In (POST url body auth)
          (snd (breakBones (world None) (layout 4 4) (editingAt twoCorners 1 queuedResult)))
       /\ url = "http://backend:8000/apply_fracture_queue".
Proof.
  split.
  - apply (proj1 (mode_by_containment (world None) (layout 4 4)
             (editingAt onePixel 1 "http://cdn/proxy?u=http://backend:8000/results/7/1"))).
    exists "http://cdn/proxy?u=", "/results/7/1". reflexivity.
  - assert (Hin : exists url body auth,
              In (POST url body auth)
                 (snd (breakBones (world None) (layout 4 4)
                                  (editingAt twoCorners 1 queuedResult)))).
    { third_effect. }
    destruct Hin as [url [body [auth Hin]]]. exists url, body, auth.
    split; [exact Hin|].
    exact (proj2 (proj2 (mode_by_containment (world None) (layout 4 4)
             (editingAt twoCorners 1 queuedResult))) url body auth Hin).
Defined.

(** What a run that reaches the network has gone through. *)
Lemma posted : forall w dom st url body auth,
  In (POST url body auth) (snd (breakBones w dom st)) ->
  exists image blob,
    fetched w = Some image /\
    toBlob (encoded w) (croppedCanvas w dom st) = Some blob /\
    POST url body auth = request w dom st image blob /\
    snd (breakBones w dom st)
    = [GET (imageSrc st); explode (seeds (found w dom st)); request w dom st image blob] /\
    fst (breakBones w dom st)
    = match response w with
      | Some res => if ok res then afterSuccess w dom st else afterOutline w dom st
      | None => afterOutline w dom st
      end.
Proof.
  intros w dom st url body auth H. rewrite breakBones_run in *.
  destruct (fetched w) as [image|]; [|simpl in H; destruct H as [H|[]]; discriminate].
  destruct (toBlob _ _) as [blob|] eqn:B; cbn [snd fst] in *.
  - exists image, blob. simpl in H.
    destruct H as [H|[H|[H|[]]]]; try discriminate.
    repeat split; congruence.
  - simpl in H. destruct H as [H|[H|[]]]; discriminate.
Qed.


Lemma round_comp : forall a b, (a == b)%Q -> Math.round a = Math.round b.
Proof.
  intros a b H. unfold Math.round. apply Qfloor_comp. rewrite H. reflexivity.
Qed.

Lemma inject_nat_nonzero : forall n,
  (0 < n)%nat -> ~ (inject_Z (Z.of_nat n) == 0)%Q.
Proof.
  intros n Hn H. unfold Qeq in H. simpl in H. lia.
Qed.

(** The source-space coordinate: display space cancels when the canvas is
    laid out. *)
Lemma sourceX_device : forall w dom st,
  (0 < Canvas.width (canvas st))%nat ->
  ~ (DOMRect.width (rect dom) == 0)%Q ->
  sourceX w dom st
  = Math.round (inject_Z (minX (found w dom st)) * inject_Z (naturalWidth dom)
                / inject_Z (Z.of_nat (Canvas.width (canvas st)))).
Proof.
  intros w dom st Hc Hr. unfold sourceX, displayMinX, toDisplay.
  apply round_comp. field.
  split; (exact Hr || (apply inject_nat_nonzero; exact Hc)).
Qed.

Lemma sourceY_device : forall w dom st,
  (0 < Canvas.height (canvas st))%nat ->
  ~ (DOMRect.height (rect dom) == 0)%Q ->
  sourceY w dom st
  = Math.round (inject_Z (minY (found w dom st)) * inject_Z (naturalHeight dom)
                / inject_Z (Z.of_nat (Canvas.height (canvas st)))).
Proof.
  intros w dom st Hc Hr. unfold sourceY, displayMinY, toDisplay.
  apply round_comp. field.
  split; (exact Hr || (apply inject_nat_nonzero; exact Hc)).
Qed.







(* ------------------------------------------------------------------ *)
(** ** The crop canvas *)

Lemma Qle_bool_comp : forall a b c d,
  (a == b)%Q -> (c == d)%Q -> Qle_bool a c = Qle_bool b d.
Proof.
  intros a b c d H1 H2.
  destruct (Qle_bool a c) eqn:E1; destruct (Qle_bool b d) eqn:E2; try reflexivity.
  - apply Qle_bool_iff in E1. rewrite H1, H2 in E1. apply Qle_bool_iff in E1. congruence.
  - apply Qle_bool_iff in E2. rewrite <- H1, <- H2 in E2. apply Qle_bool_iff in E2. congruence.
Qed.

Lemma truncate_comp : forall a b, (a == b)%Q -> truncate a = truncate b.
Proof.
  intros a b H. unfold truncate.
  rewrite (Qle_bool_comp 0 0 a b (Qeq_refl 0) H).
  destruct (Qle_bool 0 b); [apply Qfloor_comp | apply Qceiling_comp]; exact H.
Qed.

Lemma reflectDimension_comp : forall d a b,
  (a == b)%Q -> reflectDimension d a = reflectDimension d b.
Proof.
  intros d a b H. unfold reflectDimension, ToUint32. rewrite (truncate_comp a b H). reflexivity.
Qed.

(** Assigning a number at or below -1 (and above -2^32) to a canvas
    dimension leaves the canvas with pixels: the value wraps around and is
    kept, or is replaced by the default. *)
Lemma reflectDimension_negative : forall d q,
  (0 < d)%Z -> (1 <= q)%Q -> (q < inject_Z (2 ^ 32))%Q ->
  reflectDimension d (- q) <> 0%nat.
Proof.
  intros d q Hd H1 H2. unfold reflectDimension, ToUint32, truncate.
  assert (N : Qle_bool 0 (- q) = false).
  { destruct (Qle_bool 0 (- q)) eqn:E; [|reflexivity].
    apply Qle_bool_iff in E. lra. }
  rewrite N. unfold Qceiling. rewrite (Qfloor_comp (- - q) q) by (apply Qopp_involutive).
  assert (L : (1 <= Qfloor q)%Z).
  { rewrite <- (Qfloor_Z 1). apply Qfloor_resp_le. exact H1. }
  assert (U : (Qfloor q < 2 ^ 32)%Z).
  { rewrite Zlt_Qlt. eapply Qle_lt_trans; [apply Qfloor_le | exact H2]. }
  set (n := Qfloor q) in *.
  assert (M : ((- n) mod 2 ^ 32 = 2 ^ 32 - n)%Z).
  { rewrite <- (Z.mod_add (- n) 1 (2 ^ 32)) by lia.
    rewrite Z.mod_small by lia. lia. }
  rewrite M. destruct (2 ^ 32 - n <=? 2147483647)%Z; lia.
Qed.

Lemma drawImage_size : forall image sx sy sw sh dx dy dw dh dst,
  Canvas.width (drawImage image sx sy sw sh dx dy dw dh dst) = Canvas.width dst
  /\ Canvas.height (drawImage image sx sy sw sh dx dy dw dh dst) = Canvas.height dst.
Proof.
  intros. unfold drawImage. destruct (_ || _); split; reflexivity.
Qed.

Lemma croppedCanvas_size : forall w dom st,
  Canvas.width (croppedCanvas w dom st)
  = reflectDimension 300 (displayMaxX w dom st - displayMinX w dom st)
  /\ Canvas.height (croppedCanvas w dom st)
  = reflectDimension 150 (displayMaxY w dom st - displayMinY w dom st).
Proof.
  intros. unfold croppedCanvas.
  split; [rewrite (proj1 (drawImage_size _ _ _ _ _ _ _ _ _ _))
         | rewrite (proj2 (drawImage_size _ _ _ _ _ _ _ _ _ _))]; reflexivity.
Qed.

(** On an overlay without a painted pixel the crop canvas still has
    pixels, so that [toBlob] hands over a blob and the request is made. *)
Lemma empty_overlay_request : forall w dom st image,
  count (found w dom st) = 0%nat ->
  laidOut dom st ->
  fetched w = Some image ->
  encoded w = true ->
  snd (breakBones w dom st)
  = [GET (imageSrc st); explode (seeds (found w dom st));
     request w dom st image (pngBlob (croppedCanvas w dom st))].
Proof.
  intros w dom st image C [Hw [Hh [W1 [W2 [H1 H2]]]]] F E.
  destruct (scan_nothing (canvas st) (rect dom) (random w) C) as [MX [MY [XX XY]]].
  fold (found w dom st) in MX, MY, XX, XY.
  destruct (croppedCanvas_size w dom st) as [Sw Sh].
  assert (Dw : (displayMaxX w dom st - displayMinX w dom st == - DOMRect.width (rect dom))%Q).
  { unfold displayMaxX, displayMinX, toDisplay. rewrite MX, XX.
    field. apply inject_nat_nonzero. exact Hw. }
  assert (Dh : (displayMaxY w dom st - displayMinY w dom st == - DOMRect.height (rect dom))%Q).
  { unfold displayMaxY, displayMinY, toDisplay. rewrite MY, XY.
    field. apply inject_nat_nonzero. exact Hh. }
  rewrite (reflectDimension_comp _ _ _ Dw) in Sw.
  rewrite (reflectDimension_comp _ _ _ Dh) in Sh.
  assert (B : toBlob (encoded w) (croppedCanvas w dom st)
              = Some (pngBlob (croppedCanvas w dom st))).
  { unfold toBlob. rewrite Sw, Sh, E.
    destruct (Nat.eqb_spec (reflectDimension 300 (- DOMRect.width (rect dom))) 0) as [Z|_].
    - exfalso. revert Z. apply reflectDimension_negative; [lia | assumption | assumption].
    - destruct (Nat.eqb_spec (reflectDimension 150 (- DOMRect.height (rect dom))) 0) as [Z|_].
      + exfalso. revert Z. apply reflectDimension_negative; [lia | assumption | assumption].
      + reflexivity. }
  rewrite breakBones_run, F, B. reflexivity.
Qed.

Lemma round_inject_Z : forall z, Math.round (inject_Z z) = z.
Proof.
  intros z. unfold Math.round.
  assert (L : (z <= Qfloor (inject_Z z + (1 # 2)))%Z).
  { rewrite <- (Qfloor_Z z) at 1. apply Qfloor_resp_le.
    generalize (inject_Z z). intros q. lra. }
  assert (U : (Qfloor (inject_Z z + (1 # 2)) < z + 1)%Z).
  { rewrite Zlt_Qlt. eapply Qle_lt_trans; [apply Qfloor_le|].
    rewrite inject_Z_plus. generalize (inject_Z z). intros q.
    change (inject_Z 1) with 1%Q. lra. }
  lia.
Qed.

(** C1, as the code has it.  [breakBones] has no check of [count]: on an
    overlay without a painted pixel the submission goes ahead.  Once the
    image has been fetched and the crop canvas (which takes the default
    size, its assigned size being negative) has been encoded, the one
    request of the run is made, to the endpoint of the mode, with the
    natural size of the image as [x] and [y]. *)
Theorem empty_overlay_is_submitted : forall w dom st image,
  count (found w dom st) = 0%nat ->
  laidOut dom st ->
  fetched w = Some image ->
  encoded w = true ->
  let body := match submissionMode w st with
              | queued => queuedForm w dom st (pngBlob (croppedCanvas w dom st))
              | direct => directForm w dom st image (pngBlob (croppedCanvas w dom st))
              end in
  snd (breakBones w dom st)
  = [GET (imageSrc st); explode (seeds (found w dom st));
     POST (endpoint w st) body (bearer (session w))]
  /\ FormData.getAll "x" body = [text (toString (naturalWidth dom))]
  /\ FormData.getAll "y" body = [text (toString (naturalHeight dom))].
Proof.
  intros w dom st image C L F E body.
  split; [apply (empty_overlay_request w dom st image C L F E)|].
  destruct L as [Hw [Hh [W1 [_ [H1 _]]]]].
  destruct (scan_nothing (canvas st) (rect dom) (random w) C) as [MX [MY _]].
  fold (found w dom st) in MX, MY.
  assert (X : sourceX w dom st = naturalWidth dom).
  { rewrite sourceX_device; [|exact Hw | intros Z; rewrite Z in W1; lra].
    rewrite MX. rewrite <- (round_inject_Z (naturalWidth dom)) at 2.
    apply round_comp. field. apply inject_nat_nonzero. exact Hw. }
  assert (Y : sourceY w dom st = naturalHeight dom).
  { rewrite sourceY_device; [|exact Hh | intros Z; rewrite Z in H1; lra].
    rewrite MY. rewrite <- (round_inject_Z (naturalHeight dom)) at 2.
    apply round_comp. field. apply inject_nat_nonzero. exact Hh. }
  subst body. unfold queuedForm, directForm. rewrite X, Y.
  destruct (submissionMode w st); split; reflexivity.
Qed.

Lemma laidOut_2x2 : laidOut (layout 2 2) (editingAt (Canvas.blank 2 2) 1 fresh).
Proof.
  unfold laidOut. simpl. repeat split; try lia; unfold Qle, Qlt; simpl; lia.
Qed.

Lemma empty_overlay_is_submitted_witness :
  FormData.getAll "x"
    (directForm (world None) (layout 2 2) (editingAt (Canvas.blank 2 2) 1 fresh)
       (bytes [137; 80; 78; 71]%Z)
       (pngBlob (croppedCanvas (world None) (layout 2 2)
                               (editingAt (Canvas.blank 2 2) 1 fresh))))
  = [text "8"].
Proof.
  apply (proj1 (proj2 (empty_overlay_is_submitted (world None) (layout 2 2)
           (editingAt (Canvas.blank 2 2) 1 fresh) (bytes [137; 80; 78; 71]%Z)
           eq_refl laidOut_2x2 eq_refl eq_refl))).
Defined.

(** C1, as stated, fails: with a fully transparent 2 x 2 overlay the scan
    counts nothing and the request to [/apply_fracture] is made all the
    same. *)
Lemma empty_overlay_reaches_network :
  let w := world None in
  let st := editingAt (Canvas.blank 2 2) 1 fresh in
  (forall x y, alphaAt (canvas st) x y = 0%Z)
  /\ count (found w (layout 2 2) st) = 0%nat
  /\ exists body auth,
       In (POST "http://backend:8000/apply_fracture" body auth)
          (snd (breakBones w (layout 2 2) st)).
Proof.
  intros w st. split.
  { intros x y. unfold alphaAt, st. cbn [canvas editingAt getImageData data Canvas.blank Canvas.pixels].
    apply nth_repeat. }
  split; [reflexivity|].
  rewrite (empty_overlay_request w (layout 2 2) st (bytes [137; 80; 78; 71]%Z)
             eq_refl laidOut_2x2 eq_refl eq_refl).
  do 2 eexists. right; right; left. reflexivity.
Qed.

(* ================================================================== *)
(** * Restoring a snapshot *)


Lemma Qfloor_between : forall q z,
  (inject_Z z <= q)%Q -> (q < inject_Z z + 1)%Q -> Qfloor q = z.
Proof.
  intros q z L U.
  assert (A : (z <= Qfloor q)%Z).
  { rewrite <- (Qfloor_Z z). apply Qfloor_resp_le. exact L. }
  assert (B : (Qfloor q < z + 1)%Z).
  { rewrite Zlt_Qlt. eapply Qle_lt_trans; [apply Qfloor_le|].
    rewrite inject_Z_plus. exact U. }
  lia.
Qed.













(* ================================================================== *)
(** * The cropped overlay *)

(** C2 fails on the code.  The crop canvas is sized in display pixels
    ([maxX - minX] after the conversion of lines 303-306) while the copy
    into it is made at device size.  With [dpr = 2] the painted region from
    (0, 0) to (3, 3), four device pixels each way, is sent as a canvas of
    1 x 1 pixel.  Even with [dpr = 1] the canvas is 3 x 3: the last column
    and row of the region, among them the painted pixel (3, 3), are left
    out. *)
Theorem crop_is_display_sized :
  let w := world (Some accepted) in
  let hiDpi := editingAt twoCorners 2 fresh in
  let loDpi := editingAt twoCorners 1 fresh in
  let box (r : Region) := (minX r, minY r, maxX r, maxY r) in
  (dpr hiDpi >= 1)%Q
  /\ box (found w (layout 2 2) hiDpi) = (0, 0, 3, 3)%Z
  /\ (exists c, overlayFile (snd (breakBones w (layout 2 2) hiDpi)) = Some c
                /\ Canvas.width c = 1 /\ Canvas.height c = 1)
  /\ box (found w (layout 4 4) loDpi) = (0, 0, 3, 3)%Z
  /\ (exists c, overlayFile (snd (breakBones w (layout 4 4) loDpi)) = Some c
                /\ Canvas.width c = 3 /\ Canvas.height c = 3).
Proof.
  intros w hiDpi loDpi box.
  split; [unfold Qge, Qle; simpl; lia|].
  split; [vm_compute; reflexivity|].
  split; [vm_compute; eexists; repeat split; reflexivity|].
  split; [vm_compute; reflexivity|].
  vm_compute; eexists; repeat split; reflexivity.
Qed.

(* ================================================================== *)
(** * Pixels of a rebuilt store *)

Lemma flat_map_length4 : forall (f : nat -> list Z) (l : list nat),
  (forall k, List.length (f k) = 4) ->
  List.length (flat_map f l) = 4 * List.length l.
Proof.
  intros f l Hf. induction l as [|a l IH]; [reflexivity|].
  simpl flat_map. rewrite length_app, Hf, IH. simpl. lia.
Qed.

Lemma nth_flat_map4 : forall (f : nat -> list Z) (n k j : nat) (d : Z),
  (forall i, List.length (f i) = 4) ->
  k < n -> j < 4 ->
  nth (k * 4 + j) (flat_map f (seq 0 n)) d = nth j (f k) d.
Proof.
  intros f n k j d Hf. induction n as [|n IH]; intros Hk Hj; [lia|].
  rewrite seq_S, flat_map_app. simpl flat_map. rewrite app_nil_r.
  assert (L : List.length (flat_map f (seq 0 n)) = 4 * n).
  { rewrite (flat_map_length4 f _ Hf), length_seq. reflexivity. }
  destruct (Nat.eq_dec k n) as [->|Hne].
  - rewrite app_nth2 by lia. rewrite L. f_equal. lia.
  - rewrite app_nth1 by lia. apply IH; lia.
Qed.

Lemma four_nths : forall (l : list Z) (d : Z),
  List.length l = 4 -> [nth 0 l d; nth 1 l d; nth 2 l d; nth 3 l d] = l.
Proof.
  intros l d H. destruct l as [|a [|b [|c [|e [|g l]]]]]; try discriminate. reflexivity.
Qed.

Lemma rgba_length : forall c x y, List.length (Canvas.rgba c x y) = 4.
Proof. reflexivity. Qed.

(** Reading back the pixel of a store rebuilt by [tabulate]. *)
Lemma rgba_tabulate : forall (w h : nat) (f : nat -> nat -> list Z) (x y : nat),
  (forall i j, List.length (f i j) = 4) ->
  x < w -> y < h ->
  Canvas.rgba (Canvas.tabulate w h f) x y = f x y.
Proof.
  intros w h f x y Hf Hx Hy. unfold Canvas.rgba, Canvas.tabulate.
  cbn [Canvas.width Canvas.pixels].
  assert (K : y * w + x < w * h) by nia.
  assert (Hw : w <> 0) by lia.
  assert (Em : (y * w + x) mod w = x).
  { rewrite Nat.add_comm, Nat.Div0.mod_add. apply Nat.mod_small. exact Hx. }
  assert (Ed : (y * w + x) / w = y).
  { rewrite Nat.add_comm, Nat.div_add by exact Hw. rewrite Nat.div_small by exact Hx. reflexivity. }
  set (g := fun k => f (k mod w) (k / w)).
  assert (Hg : forall i, List.length (g i) = 4) by (intros i; apply Hf).
  replace ((y * w + x) * 4) with ((y * w + x) * 4 + 0) at 1 by lia.
  rewrite !(nth_flat_map4 g (w * h) (y * w + x) _ 0%Z Hg K) by lia.
  unfold g. rewrite Em, Ed. apply four_nths. apply Hf.
Qed.

Lemma tabulate_wf : forall (w h : nat) (f : nat -> nat -> list Z),
  (forall i j, List.length (f i j) = 4) -> Canvas.wf (Canvas.tabulate w h f).
Proof.
  intros w h f Hf. unfold Canvas.wf, Canvas.tabulate. cbn [Canvas.width Canvas.height Canvas.pixels].
  rewrite (flat_map_length4 (fun k => f (k mod w) (k / w))) by (intros k; apply Hf).
  rewrite length_seq. reflexivity.
Qed.

Lemma blank_wf : forall w h, Canvas.wf (Canvas.blank w h).
Proof.
  intros w h. unfold Canvas.wf, Canvas.blank. cbn [Canvas.width Canvas.height Canvas.pixels].
  apply repeat_length.
Qed.

Lemma alphaAt_rgba : forall c x y, alphaAt c x y = nth 3 (Canvas.rgba c x y) 0%Z.
Proof. reflexivity. Qed.

Lemma alphaAt_blank : forall w h x y, alphaAt (Canvas.blank w h) x y = 0%Z.
Proof.
  intros. unfold alphaAt. cbn [getImageData data Canvas.blank Canvas.pixels]. apply nth_repeat.
Qed.

Lemma ink_length : forall op col, List.length (ink op col) = 4.
Proof. intros [] [[r g] b]; reflexivity. Qed.

Lemma stroke_size : forall op round col lw d segs c,
  Canvas.width (stroke op round col lw d segs c) = Canvas.width c
  /\ Canvas.height (stroke op round col lw d segs c) = Canvas.height c
  /\ Canvas.wf (stroke op round col lw d segs c).
Proof.
  intros. split; [reflexivity|]. split; [reflexivity|].
  unfold stroke. apply tabulate_wf. intros i j.
  destruct (existsb _ segs); [|reflexivity]. destruct op; [destruct col as [[r g] b]|]; reflexivity.
Qed.

(** A stroke, pixel by pixel. *)
Lemma stroke_rgba : forall op round col lw d segs c x y,
  x < Canvas.width c -> y < Canvas.height c ->
  Canvas.rgba (stroke op round col lw d segs c) x y
  = if covered round lw d segs x y then ink op col else Canvas.rgba c x y.
Proof.
  intros op round col lw d segs c x y Hx Hy. unfold stroke.
  rewrite rgba_tabulate; [reflexivity | | exact Hx | exact Hy].
  intros i j. destruct (existsb _ segs); [|reflexivity].
  destruct op; [destruct col as [[r g] b]|]; reflexivity.
Qed.

(* ================================================================== *)
(** * Strokes *)






(* ================================================================== *)
(** * Pointer gestures *)

(** What neither a move nor a lift of the pointer touches. *)
Lemma track_frame : forall dom st i,
  undoStack (track dom st i) = undoStack st
  /\ redoStack (track dom st i) = redoStack st
  /\ loading (track dom st i) = loading st
  /\ dpr (track dom st i) = dpr st
  /\ Canvas.width (canvas (track dom st i)) = Canvas.width (canvas st)
  /\ Canvas.height (canvas (track dom st i)) = Canvas.height (canvas st).
Proof.
  intros dom st [e | ok]; cbn [track].
  - unfold onPointerMove. destruct (negb (drawing st)); repeat split; reflexivity.
  - unfold onPointerUp. destruct ok; repeat split; reflexivity.
Qed.

Lemma tracks_frame : forall dom inputs st,
  undoStack (fold_left (track dom) inputs st) = undoStack st
  /\ redoStack (fold_left (track dom) inputs st) = redoStack st
  /\ loading (fold_left (track dom) inputs st) = loading st
  /\ dpr (fold_left (track dom) inputs st) = dpr st
  /\ Canvas.width (canvas (fold_left (track dom) inputs st)) = Canvas.width (canvas st)
  /\ Canvas.height (canvas (fold_left (track dom) inputs st)) = Canvas.height (canvas st).
Proof.
  intros dom inputs. induction inputs as [|i inputs IH]; intros st; [repeat split; reflexivity|].
  cbn [fold_left]. destruct (IH (track dom st i)) as [A [B [C [D [E F]]]]].
  destruct (track_frame dom st i) as [A' [B' [C' [D' [E' F']]]]].
  repeat split; congruence.
Qed.

Lemma press_stacks : forall dom e ok st,
  button e <> 1%Z -> button e <> 2%Z ->
  undoStack (onPointerDown dom e ok st) = undoStack (pushUndo ok st)
  /\ redoStack (onPointerDown dom e ok st) = redoStack (pushUndo ok st).
Proof.
  intros dom e ok st H1 H2. unfold onPointerDown.
  destruct (Z.eqb_spec (button e) 1); [contradiction|].
  destruct (Z.eqb_spec (button e) 2); [contradiction|].
  split; reflexivity.
Qed.

(** X3. One history entry per stroke: whatever the pointer does after a press
    that starts a stroke (any number of moves, lifts and leaves), the two
    stacks stay as the recording at the press left them. *)
Theorem one_entry_per_stroke : forall dom e ok inputs st,
  button e <> 1%Z -> button e <> 2%Z ->
  let st' := fold_left (track dom) inputs (onPointerDown dom e ok st) in
  undoStack st' = undoStack (pushUndo ok st)
  /\ redoStack st' = redoStack (pushUndo ok st).
Proof.
  intros dom e ok inputs st H1 H2 st'. subst st'.
  destruct (tracks_frame dom inputs (onPointerDown dom e ok st)) as [A [B _]].
  destruct (press_stacks dom e ok st H1 H2) as [U R].
  rewrite A, B. split; [exact U | exact R].
Qed.

Lemma one_entry_per_stroke_witness :
  undoStack (fold_left (track (layout 4 4)) [moved (press 0); lifted true; moved (press 0)]
               (onPointerDown (layout 4 4) (press 0) true (editingAt twoCorners 1 fresh)))
  = [png twoCorners].
Proof.
  apply (proj1 (one_entry_per_stroke (layout 4 4) (press 0) true
                  [moved (press 0); lifted true; moved (press 0)]
                  (editingAt twoCorners 1 fresh)
                  ltac:(discriminate) ltac:(discriminate))).
Defined.

(** X4. Outside a stroke the pointer paints nothing: once the pointer has been
    lifted (or has left the canvas), moves leave the whole state as it is,
    until the next press. *)
Theorem moves_after_lift_do_nothing : forall dom ok moves st,
  fold_left (fun s e => onPointerMove dom e s) moves (onPointerUp ok st)
  = onPointerUp ok st.
Proof.
  intros dom ok moves st.
  assert (I : forall s, drawing s = false ->
                fold_left (fun s e => onPointerMove dom e s) moves s = s).
  { induction moves as [|e moves IH]; intros s D; [reflexivity|].
    cbn [fold_left]. unfold onPointerMove at 2. rewrite D. cbn [negb]. apply IH. exact D. }
  apply I. unfold onPointerUp. destruct ok; reflexivity.
Qed.

(* ================================================================== *)
(** * Undoing a change *)





Lemma twoCorners_fits : fits (layout 4 4) (editingAt twoCorners 1 fresh).
Proof. split; reflexivity. Qed.


(* ================================================================== *)
(** * The scan: count and seeds *)

Lemma scanOrder_NoDup : forall c, NoDup (scanOrder c).
Proof.
  intros c. unfold scanOrder.
  assert (G : forall ys, NoDup ys ->
            NoDup (flat_map (fun y : nat => map (pair y) (seq 0 (Canvas.width c))) ys)).
  { induction ys as [|y ys IH]; intros N; [constructor|].
    inversion N as [|? ? Hy Nys]; subst. cbn [flat_map]. apply NoDup_app.
    - apply NoDup_map_NoDup_ForallPairs; [|apply seq_NoDup].
      intros a b _ _ E. inversion E. reflexivity.
    - apply IH. exact Nys.
    - intros [y' x'] H1 H2. apply in_map_iff in H1 as [x [E _]]. inversion E; subst.
      apply in_flat_map in H2 as [y'' [Hy'' H2]].
      apply in_map_iff in H2 as [x'' [E' _]]. inversion E'; subst. contradiction. }
  apply G, seq_NoDup.
Qed.

Lemma in_paintedPixels : forall c x y,
  In (y, x) (paintedPixels c)
  <-> x < Canvas.width c /\ y < Canvas.height c /\ painted c x y.
Proof.
  intros c x y. unfold paintedPixels. rewrite filter_In, in_scanOrder. cbn [fst snd].
  unfold painted. rewrite Z.ltb_lt. tauto.
Qed.

Lemma count_paintedPixels : forall c rect random,
  count (scan (getImageData c) c rect random) = List.length (paintedPixels c).
Proof.
  intros c rect random.
  destruct (scan_spec c rect random) as [_ _ _ _ _ _ CNT]. exact CNT.
Qed.

Lemma count_unpainted : forall c rect random,
  (forall x y, x < Canvas.width c -> y < Canvas.height c -> ~ painted c x y) ->
  count (scan (getImageData c) c rect random) = 0.
Proof.
  intros c rect random N. rewrite count_paintedPixels.
  destruct (paintedPixels c) as [|[y x] l] eqn:E; [reflexivity|].
  exfalso. assert (I : In (y, x) (paintedPixels c)) by (rewrite E; left; reflexivity).
  apply in_paintedPixels in I. destruct I as [Hx [Hy Hp]].
  exact (N x y Hx Hy Hp).
Qed.

(** X6. The scan counts the painted pixels: each pixel of the store is
    visited exactly once, and [count] ends as the number of those with
    alpha > 0; it is 0 exactly when nothing is painted. *)
Theorem scan_counts_painted : forall c rect random,
  let r := scan (getImageData c) c rect random in
  NoDup (paintedPixels c)
  /\ (forall x y, In (y, x) (paintedPixels c)
                  <-> x < Canvas.width c /\ y < Canvas.height c /\ painted c x y)
  /\ count r = List.length (paintedPixels c)
  /\ (count r = 0 <->
      forall x y, x < Canvas.width c -> y < Canvas.height c -> ~ painted c x y).
Proof.
  intros c rect random r.
  split; [apply NoDup_filter, scanOrder_NoDup|].
  split; [intros x y; apply in_paintedPixels|].
  split; [apply count_paintedPixels|].
  split; [|apply count_unpainted].
  intros E x y Hx Hy Hp. subst r. rewrite count_paintedPixels in E.
  assert (I : In (y, x) (paintedPixels c)) by (apply in_paintedPixels; tauto).
  destruct (paintedPixels c); [contradiction | discriminate].
Qed.

Lemma scan_counts_painted_witness :
  count (scan (getImageData (Canvas.blank 2 2)) (Canvas.blank 2 2)
              (DOMRect.mk 0 0 2 2) (fun _ => 1%Q)) = 0.
Proof.
  apply (proj2 (proj2 (proj2 (proj2 (scan_counts_painted (Canvas.blank 2 2)
                                       (DOMRect.mk 0 0 2 2) (fun _ => 1%Q)))))).
  intros x y _ _ H. unfold painted in H. rewrite alphaAt_blank in H. lia.
Defined.

(** X7. A clear leaves an empty mask, whatever the two snapshots do: every
    pixel is transparent and a scan of the cleared overlay counts
    nothing. *)
Theorem clearCanvas_empties_mask : forall ok ok' st w dom,
  (forall x y, alphaAt (canvas (clearCanvas ok ok' st)) x y = 0%Z)
  /\ count (found w dom (clearCanvas ok ok' st)) = 0
  /\ Canvas.width (canvas (clearCanvas ok ok' st)) = Canvas.width (canvas st)
  /\ Canvas.height (canvas (clearCanvas ok ok' st)) = Canvas.height (canvas st).
Proof.
  intros ok ok' st w dom.
  assert (E : canvas (clearCanvas ok ok' st)
              = Canvas.blank (Canvas.width (canvas st)) (Canvas.height (canvas st))).
  { unfold clearCanvas. destruct ok'; destruct ok; reflexivity. }
  assert (A : forall x y, alphaAt (canvas (clearCanvas ok ok' st)) x y = 0%Z).
  { intros x y. rewrite E. apply alphaAt_blank. }
  split; [exact A|]. split.
  - unfold found.
    apply count_unpainted.
    intros x y _ _ Hp. unfold painted in Hp. rewrite A in Hp. lia.
  - rewrite E. split; reflexivity.
Qed.

Lemma scanStep_seeds : forall c rect random r x y,
  (0 < alphaAt c x y)%Z ->
  count (scanStep c rect random r (y, x)) = S (count r)
  /\ seeds (scanStep c rect random r (y, x))
     = if Qltb (95 # 100) (random (count r))
       then seeds r ++ [seedOf c rect x y] else seeds r.
Proof.
  intros c rect random r x y H. unfold scanStep. cbn [fst snd]. unfold scanPixel.
  fold (alphaAt c x y).
  destruct (Z.ltb_spec 0 (alphaAt c x y)); [|lia].
  split; reflexivity.
Qed.

Lemma seeds_invariant : forall c rect random l r0,
  let r := fold_left (scanStep c rect random) l r0 in
  (forall s, In s (seeds r) ->
     In s (seeds r0) \/
     exists x y, In (y, x) l /\ painted c x y /\ s = seedOf c rect x y)
  /\ count r0 <= count r
  /\ List.length (seeds r) + count r0 <= List.length (seeds r0) + count r
  /\ ((forall k, count r0 <= k -> Qltb (95 # 100) (random k) = false) ->
      seeds r = seeds r0)
  /\ ((forall k, count r0 <= k -> Qltb (95 # 100) (random k) = true) ->
      List.length (seeds r) + count r0 = List.length (seeds r0) + count r).
Proof.
  intros c rect random l. induction l as [|[y x] l IH]; intros r0 r; subst r.
  - simpl. repeat split; auto.
  - cbn [fold_left]. specialize (IH (scanStep c rect random r0 (y, x))).
    cbv zeta in IH. destruct IH as [I1 [I2 [I3 [I4 I5]]]].
    destruct (Z.ltb_spec 0 (alphaAt c x y)) as [Hp | Hn].
    + destruct (scanStep_seeds c rect random r0 x y Hp) as [Ec Es].
      rewrite Ec in *. rewrite Es in *.
      split; [|split; [lia|split; [|split]]].
      * intros s Hs. destruct (I1 s Hs) as [Hin | [x' [y' [Hin [Hp' E]]]]].
        -- destruct (Qltb (95 # 100) (random (count r0))).
           ++ apply in_app_or in Hin as [Hin | [E | []]]; [left; exact Hin|].
              right. exists x, y. split; [left; reflexivity|]. split; [exact Hp | symmetry; exact E].
           ++ left; exact Hin.
        -- right. exists x', y'. split; [right; exact Hin|]. split; assumption.
      * destruct (Qltb (95 # 100) (random (count r0))); [rewrite length_app in I3; simpl in I3|]; lia.
      * intros N. rewrite I4 by (intros k Hk; apply N; lia).
        rewrite (N (count r0)) by lia. reflexivity.
      * intros N. specialize (I5 ltac:(intros k Hk; apply N; lia)).
        rewrite (N (count r0)) in I5 by lia. rewrite length_app in I5. simpl in I5. lia.
    + assert (E : scanStep c rect random r0 (y, x) = r0).
      { apply step_unpainted. unfold painted. lia. }
      rewrite E in *.
      split; [|split; [exact I2|split; [exact I3|split; assumption]]].
      intros s Hs. destruct (I1 s Hs) as [Hin | [x' [y' [Hin [Hp' Es]]]]]; [left; exact Hin|].
      right. exists x', y'. split; [right; exact Hin|]. split; assumption.
Qed.

(** X8. The seed points of the visual effect.  Every seed is the
    display-space position of a painted pixel of the store; there are at
    most [count] of them; none when [Math.random()] never exceeds 0.95 and
    one per painted pixel when it always does. *)
Theorem seeds_are_painted_pixels : forall c rect random,
  let r := scan (getImageData c) c rect random in
  (forall s, In s (seeds r) ->
     exists x y, x < Canvas.width c /\ y < Canvas.height c /\ painted c x y
                 /\ s = seedOf c rect x y)
  /\ List.length (seeds r) <= count r
  /\ ((forall k, Qltb (95 # 100) (random k) = false) -> seeds r = [])
  /\ ((forall k, Qltb (95 # 100) (random k) = true) -> List.length (seeds r) = count r).
Proof.
  intros c rect random r. subst r. rewrite scan_as_one_loop.
  destruct (seeds_invariant c rect random (scanOrder c)
              (mkRegion (Z.of_nat (Canvas.width c)) (Z.of_nat (Canvas.height c)) 0 0 0 []))
    as [I1 [_ [I3 [I4 I5]]]].
  cbn [seeds count List.length] in *.
  split; [|split; [lia|split]].
  - intros s Hs. destruct (I1 s Hs) as [[] | [x [y [Hin [Hp E]]]]].
    apply in_scanOrder in Hin. exists x, y. tauto.
  - intros N. apply I4. intros k _. apply N.
  - intros N. specialize (I5 ltac:(intros k _; apply N)). lia.
Qed.

Lemma seeds_are_painted_pixels_witness :
  seeds (scan (getImageData twoCorners) twoCorners (DOMRect.mk 0 0 4 4) (fun _ => 0%Q)) = [].
Proof.
  apply (proj1 (proj2 (proj2 (seeds_are_painted_pixels twoCorners (DOMRect.mk 0 0 4 4)
                                (fun _ => 0%Q))))).
  intros k. reflexivity.
Defined.

(* ================================================================== *)
(** * Runs of breakBones *)

Lemma reflectDimension_small : forall d q,
  (- (1) < q)%Q -> (q < 1)%Q -> reflectDimension d q = 0.
Proof.
  intros d q L U. unfold reflectDimension, ToUint32, truncate.
  assert (T : (if Qle_bool 0 q then Qfloor q else Qceiling q) = 0%Z).
  { destruct (Qle_bool 0 q) eqn:E.
    - apply Qle_bool_iff in E.
      apply Qfloor_between; change (inject_Z 0) with 0%Q; lra.
    - assert (N : (q < 0)%Q).
      { destruct (Qlt_le_dec q 0) as [N|N]; [exact N|].
        apply Qle_bool_iff in N. congruence. }
      unfold Qceiling.
      rewrite (Qfloor_between (- q) 0);
        [reflexivity | change (inject_Z 0) with 0%Q; lra | change (inject_Z 0) with 0%Q; lra]. }
  rewrite T. reflexivity.
Qed.

(** X9. A mask that is thinner than one CSS pixel is never submitted.  When
    the bounding box spans less than one CSS pixel in width or in height
    (in particular when all painted pixels lie in one column or one row of
    the store, a single painted pixel included), the crop canvas has no
    pixels, [toBlob] yields no blob and the run ends before the request:
    the image has been fetched and the effect triggered, nothing is
    posted. *)
Theorem thin_mask_is_not_submitted : forall w dom st,
  ((- (1) < displayMaxX w dom st - displayMinX w dom st < 1)%Q
   \/ (- (1) < displayMaxY w dom st - displayMinY w dom st < 1)%Q
   \/ maxX (found w dom st) = minX (found w dom st)
   \/ maxY (found w dom st) = minY (found w dom st)) ->
  (forall url body auth, ~ In (POST url body auth) (snd (breakBones w dom st)))
  /\ breakBones w dom st
     = match fetched w with
       | None => (st, [GET (imageSrc st)])
       | Some _ => (afterOutline w dom st,
                    [GET (imageSrc st); explode (seeds (found w dom st))])
       end.
Proof.
  intros w dom st H.
  assert (Z : Canvas.width (croppedCanvas w dom st) = 0
              \/ Canvas.height (croppedCanvas w dom st) = 0).
  { destruct (croppedCanvas_size w dom st) as [Sw Sh]. rewrite Sw, Sh.
    destruct H as [[L U] | [[L U] | [E | E]]].
    - left. apply reflectDimension_small; assumption.
    - right. apply reflectDimension_small; assumption.
    - left. unfold displayMaxX, displayMinX. rewrite E.
      rewrite (reflectDimension_comp 300 _ 0); [reflexivity | ring].
    - right. unfold displayMaxY, displayMinY. rewrite E.
      rewrite (reflectDimension_comp 150 _ 0); [reflexivity | ring]. }
  assert (B : toBlob (encoded w) (croppedCanvas w dom st) = None).
  { unfold toBlob. destruct Z as [Z | Z]; rewrite Z; [reflexivity|].
    rewrite orb_true_r. reflexivity. }
  assert (R : breakBones w dom st
     = match fetched w with
       | None => (st, [GET (imageSrc st)])
       | Some _ => (afterOutline w dom st,
                    [GET (imageSrc st); explode (seeds (found w dom st))])
       end).
  { rewrite breakBones_run, B. reflexivity. }
  split; [|exact R].
  intros url body auth I. rewrite R in I.
  destruct (fetched w); simpl in I; intuition discriminate.
Qed.

Lemma thin_mask_is_not_submitted_witness :
  snd (breakBones (world (Some accepted)) (layout 3 2) (editingAt onePixel 1 fresh))
  = [GET fresh; explode []].
Proof.
  rewrite (proj2 (thin_mask_is_not_submitted (world (Some accepted)) (layout 3 2)
                    (editingAt onePixel 1 fresh)
                    (or_intror (or_intror (or_introl eq_refl))))).
  reflexivity.
Defined.

(** X10. The effects of a run, in order.  Every run starts by fetching
    [imageSrc] and, when that fetch fails, does nothing else and leaves
    the state as it is.  Otherwise the visual effect is triggered with the
    seeds of the scan, whatever the encoder and the network do later, and
    at most one request follows, to the endpoint of the mode and with the
    bearer token of the session ("Bearer null" without one). *)
Theorem run_protocol : forall w dom st,
  (fetched w = None -> breakBones w dom st = (st, [GET (imageSrc st)]))
  /\ (forall image, fetched w = Some image ->
        exists tail,
          snd (breakBones w dom st)
          = GET (imageSrc st) :: explode (seeds (found w dom st)) :: tail
          /\ (tail = [] \/
              exists body, tail = [POST (endpoint w st) body (bearer (session w))]))
  /\ (session w = None ->
      forall url body auth,
        In (POST url body auth) (snd (breakBones w dom st)) -> auth = "Bearer null").
Proof.
  intros w dom st. rewrite breakBones_run. split; [|split].
  - intros F. rewrite F. reflexivity.
  - intros image F. rewrite F.
    destruct (toBlob (encoded w) (croppedCanvas w dom st)) as [blob|]; cbn [snd].
    + eexists. split; [reflexivity|]. right. eexists. reflexivity.
    + exists []. split; [reflexivity | left; reflexivity].
  - intros S url body auth I.
    destruct (fetched w); [|simpl in I; intuition discriminate].
    destruct (toBlob _ _); cbn [snd] in I; simpl in I;
      repeat (destruct I as [I|I]; try discriminate); try contradiction.
    unfold request in I. inversion I. unfold bearer. rewrite S. reflexivity.
Qed.

Lemma run_protocol_witness :
  breakBones {| PUBLIC_BACKEND_URL := "http://backend:8000"; fetched := None;
                random := fun _ => 0%Q; encoded := true; response := None;
                now := 0%Z; objectURL := ""; session := None |}
             (layout 4 4) (editingAt twoCorners 1 fresh)
  = (editingAt twoCorners 1 fresh, [GET fresh]).
Proof.
  apply (proj1 (run_protocol _ (layout 4 4) (editingAt twoCorners 1 fresh))).
  reflexivity.
Defined.

Lemma afterOutline_alpha : forall w dom st x y,
  x < Canvas.width (canvas st) -> y < Canvas.height (canvas st) ->
  painted (canvas st) x y -> painted (canvas (afterOutline w dom st)) x y.
Proof.
  intros w dom st x y Hx Hy Hp. unfold afterOutline, outlinedOverlay, painted in *.
  cbn [canvas set_canvas]. rewrite alphaAt_rgba, stroke_rgba by assumption.
  destruct (covered _ _ _ _ _ _); [simpl; lia | rewrite <- alphaAt_rgba; exact Hp].
Qed.

(** X11. A run never removes paint, unless it ends in a direct success, which
    clears the overlay: every pixel that was painted before the run is
    painted after it (the outline is stroked over the mask, never cut out
    of it), or the mode is direct, the response a success and the whole
    overlay transparent.  The size of the store is never changed. *)
Theorem run_keeps_paint : forall w dom st,
  let st' := fst (breakBones w dom st) in
  Canvas.width (canvas st') = Canvas.width (canvas st)
  /\ Canvas.height (canvas st') = Canvas.height (canvas st)
  /\ (forall x y, x < Canvas.width (canvas st) -> y < Canvas.height (canvas st) ->
        painted (canvas st) x y ->
        painted (canvas st') x y
        \/ (submissionMode w st = direct /\ succeeded w
            /\ forall x' y', alphaAt (canvas st') x' y' = 0%Z)).
Proof.
  intros w dom st st'. subst st'. rewrite breakBones_run.
  destruct (fetched w) as [image|]; cbn [fst].
  2:{ split; [reflexivity|]. split; [reflexivity|]. intros; left; assumption. }
  destruct (toBlob _ _) as [blob|]; cbn [fst].
  2:{ split; [reflexivity|]. split; [reflexivity|]. intros x y Hx Hy Hp. left.
      apply afterOutline_alpha; assumption. }
  destruct (response w) as [res|] eqn:R.
  2:{ split; [reflexivity|]. split; [reflexivity|]. intros x y Hx Hy Hp. left.
      apply afterOutline_alpha; assumption. }
  destruct (ok res) eqn:O.
  2:{ split; [reflexivity|]. split; [reflexivity|]. intros x y Hx Hy Hp. left.
      apply afterOutline_alpha; assumption. }
  unfold afterSuccess. destruct (submissionMode w st) eqn:M.
  - split; [reflexivity|]. split; [reflexivity|]. intros x y Hx Hy Hp. right.
    split; [reflexivity|]. split; [exists res; split; assumption|].
    intros x' y'. cbn [canvas]. unfold Canvas.clearRect. apply alphaAt_blank.
  - split; [reflexivity|]. split; [reflexivity|]. intros x y Hx Hy Hp. left.
    cbn [canvas set_src]. apply afterOutline_alpha; assumption.
Qed.

Lemma run_keeps_paint_witness :
  painted (canvas (fst (breakBones (world None) (layout 4 4) (editingAt twoCorners 1 fresh)))) 3 3.
Proof.
  destruct (proj2 (proj2 (run_keeps_paint (world None) (layout 4 4)
                            (editingAt twoCorners 1 fresh))) 3 3) as [P | [_ [[res [R _]] _]]].
  - simpl; lia.
  - simpl; lia.
  - unfold painted. vm_compute. reflexivity.
  - exact P.
  - discriminate R.
Defined.

(** X12. A direct success starts a new editing session.  [imageSrc] becomes the
    object URL of the response while [src], the image shown when the
    surface is closed, stays as it was; both stacks are empty, so that
    undo and redo do nothing; [overlayDataUrl] is unset; the overlay is
    transparent, and a scan of it counts nothing. *)
Theorem direct_success_starts_over : forall w dom st url body auth,
  In (POST url body auth) (snd (breakBones w dom st)) ->
  submissionMode w st = direct ->
  succeeded w ->
  let st' := fst (breakBones w dom st) in
  imageSrc st' = objectURL w
  /\ src st' = src st
  /\ undoStack st' = [] /\ redoStack st' = []
  /\ overlayDataUrl st' = None
  /\ (forall ok, undo ok st' = st' /\ redo ok st' = st')
  /\ (forall x y, alphaAt (canvas st') x y = 0%Z)
  /\ (forall w' dom', count (found w' dom' st') = 0)
  /\ reachable st'.
Proof.
  intros w dom st url body auth I M [res [R O]] st'. subst st'.
  destruct (posted _ _ _ _ _ _ I) as [image [blob [_ [_ [_ [_ E]]]]]].
  rewrite E, R, O. unfold afterSuccess. rewrite M.
  assert (A : forall x y,
            alphaAt (Canvas.clearRect (outlinedOverlay w dom st)) x y = 0%Z).
  { intros x y. unfold Canvas.clearRect. apply alphaAt_blank. }
  repeat split; try reflexivity.
  - exact A.
  - intros w' dom'. unfold found. cbn [canvas].
    apply count_unpainted.
    intros x y _ _ Hp. unfold painted in Hp. rewrite A in Hp. lia.
  - apply reach_start; reflexivity.
Qed.

Lemma direct_success_starts_over_witness :
  imageSrc (fst (breakBones (world (Some accepted)) (layout 4 4)
                            (editingAt twoCorners 1 fresh)))
  = "blob:http://localhost/0001".
Proof.
  assert (Hin : exists url body auth,
            In (POST url body auth)
               (snd (breakBones (world (Some accepted)) (layout 4 4)
                                (editingAt twoCorners 1 fresh)))).
  { third_effect. }
  destruct Hin as [url [body [auth Hin]]].
  apply (proj1 (direct_success_starts_over (world (Some accepted)) (layout 4 4)
                  (editingAt twoCorners 1 fresh) url body auth Hin eq_refl
                  (ex_intro _ accepted (conj eq_refl eq_refl)))).
Defined.

(* ================================================================== *)
(** * Segments of the image identifier *)

Lemma split_nonempty : forall s sep, split s sep <> [].
Proof.
  intros s sep. destruct s as [|a s]; [discriminate|].
  cbn [split]. destruct (Ascii.eqb a sep); [discriminate|].
  destruct (split s sep); discriminate.
Qed.

Lemma split_without_sep : forall s sep, occurs sep s = false -> split s sep = [s].
Proof.
  induction s as [|a s IH]; intros sep H; [reflexivity|].
  cbn [occurs] in H. apply orb_false_iff in H as [Ha Hs].
  cbn [split]. rewrite Ha, (IH sep Hs). reflexivity.
Qed.

Lemma split_app : forall a b sep,
  split (a ++ String sep b) sep = split a sep ++ split b sep.
Proof.
  induction a as [|c a IH]; intros b sep.
  - cbn [append split]. rewrite Ascii.eqb_refl. reflexivity.
  - cbn [append split]. rewrite IH.
    destruct (Ascii.eqb c sep); [reflexivity|].
    destruct (split a sep) as [|seg segs] eqn:E; [exfalso; exact (split_nonempty a sep E)|].
    reflexivity.
Qed.

Lemma split_segments : forall s sep,
  Forall (fun seg => occurs sep seg = false) (split s sep).
Proof.
  induction s as [|a s IH]; intros sep.
  - repeat constructor.
  - cbn [split]. specialize (IH sep). destruct (Ascii.eqb a sep) eqn:E.
    + constructor; [reflexivity | exact IH].
    + destruct (split s sep) as [|seg segs]; [repeat constructor; cbn; rewrite E; reflexivity|].
      inversion IH; subst. constructor; [|assumption].
      cbn [occurs]. rewrite E. assumption.
Qed.

Lemma join_split : forall s sep, join sep (split s sep) = s.
Proof.
  induction s as [|a s IH]; intros sep; [reflexivity|].
  cbn [split]. specialize (IH sep). destruct (Ascii.eqb_spec a sep) as [->|Hne].
  - destruct (split s sep) as [|seg segs] eqn:E; [exfalso; exact (split_nonempty s sep E)|].
    cbn [join append]. cbn [join] in IH. rewrite IH. reflexivity.
  - destruct (split s sep) as [|seg segs] eqn:E; [exfalso; exact (split_nonempty s sep E)|].
    destruct segs as [|seg' segs].
    + cbn [join] in *. rewrite IH. reflexivity.
    + cbn [join] in *. cbn [append]. rewrite IH. reflexivity.
Qed.

Lemma string_app_assoc : forall a b c : string,
  ((a ++ b) ++ c = a ++ (b ++ c))%string.
Proof.
  induction a as [|x a IH]; intros b c; [reflexivity|]. cbn. rewrite IH. reflexivity.
Qed.

Lemma join_snoc : forall sep l seg,
  exists pre, join sep (l ++ [seg]) = (pre ++ seg)%string.
Proof.
  intros sep l seg. induction l as [|r l [pre IH]].
  - exists "". reflexivity.
  - exists (r ++ String sep pre)%string.
    change ((r :: l) ++ [seg]) with (r :: (l ++ [seg])).
    destruct (l ++ [seg]) as [|x rest] eqn:E; [destruct l; discriminate|].
    cbn [join]. cbn [join] in IH. rewrite IH.
    rewrite string_app_assoc. reflexivity.
Qed.

Lemma pop_last_segment : forall s sep,
  exists seg rest,
    pop (split s sep) = (Some seg, rest)
    /\ occurs sep seg = false
    /\ exists pre, s = (pre ++ seg)%string.
Proof.
  intros s sep.
  destruct (pop_spec _ (split s sep)) as [[E _] | [rest [seg [E P]]]];
    [exfalso; exact (split_nonempty s sep E)|].
  exists seg, rest. split; [exact P|].
  pose proof (split_segments s sep) as F. rewrite E in F.
  apply Forall_app in F as [_ F]. inversion F; subst. split; [assumption|].
  pose proof (join_split s sep) as J. rewrite E in J.
  destruct (join_snoc sep rest seg) as [pre Hp].
  exists pre. rewrite <- J. exact Hp.
Qed.

(** X13. The job reference of a queued request, read off the image
    identifier.  For [imageSrc = base/job/choice], where neither [job]
    nor [choice] contains a slash, the request carries [job_id = job] and
    [choice = choice].  [choice] is always a real segment: a suffix of
    [imageSrc] without a slash (empty when [imageSrc] ends in a slash).
    When [imageSrc] contains no slash at all, [choice] is the whole
    identifier and [job_id] is sent as the text "undefined". *)
Theorem job_reference_of_url : forall w dom st url body auth,
  In (POST url body auth) (snd (breakBones w dom st)) ->
  submissionMode w st = queued ->
  (forall base job choice,
     occurs "/" job = false -> occurs "/" choice = false ->
     imageSrc st = (base ++ "/" ++ job ++ "/" ++ choice)%string ->
     FormData.getAll "job_id" body = [text job]
     /\ FormData.getAll "choice" body = [text choice])
  /\ (exists seg pre,
        FormData.getAll "choice" body = [text seg]
        /\ occurs "/" seg = false
        /\ imageSrc st = (pre ++ seg)%string)
  /\ (occurs "/" (imageSrc st) = false ->
      FormData.getAll "choice" body = [text (imageSrc st)]
      /\ FormData.getAll "job_id" body = [text "undefined"]).
Proof.
  intros w dom st url body auth I M.
  destruct (posted _ _ _ _ _ _ I) as [image [blob [_ [_ [E _]]]]].
  unfold request in E. rewrite M in E. inversion E as [[Eu Eb]]. clear E I Eu.
  unfold queuedForm. split; [|split].
  - intros base job choice Hj Hc S. rewrite S.
    change (base ++ "/" ++ job ++ "/" ++ choice)%string
      with (base ++ String "/" (job ++ String "/" choice))%string.
    rewrite split_app, split_app, (split_without_sep job), (split_without_sep choice)
      by assumption.
    replace (split base "/" ++ [job] ++ [choice])
      with ((split base "/" ++ [job]) ++ [choice]) by (rewrite <- app_assoc; reflexivity).
    rewrite pop_snoc. cbn [fst snd]. rewrite pop_snoc. split; reflexivity.
  - destruct (pop_last_segment (imageSrc st) "/") as [seg [rest [P [O [pre S]]]]].
    exists seg, pre. rewrite P. cbn [fst]. split; [reflexivity|]. split; assumption.
  - intros O. rewrite (split_without_sep _ _ O). split; reflexivity.
Qed.

Lemma job_reference_of_url_witness :
  exists url body auth,
    In (POST url body auth)
       (snd (breakBones (world None) (layout 4 4) (editingAt twoCorners 1 queuedResult)))
    /\ FormData.getAll "job_id" body = [text "7"]
    /\ FormData.getAll "choice" body = [text "1"].
Proof.
  assert (Hin : exists url body auth,
            In (POST url body auth)
               (snd (breakBones (world None) (layout 4 4)
                                (editingAt twoCorners 1 queuedResult)))).
  { third_effect. }
  destruct Hin as [url [body [auth Hin]]]. exists url, body, auth.
  split; [exact Hin|].
  apply (proj1 (job_reference_of_url (world None) (layout 4 4)
                  (editingAt twoCorners 1 queuedResult) url body auth Hin eq_refl)
               "http://backend:8000/results" "7" "1"); reflexivity.
Defined.

(** X14. An empty [PUBLIC_BACKEND_URL] (the variable set to nothing) makes
    every submission a queued one, whatever the image identifier: the
    empty text is contained in every text.  A non-empty one never matches
    an empty identifier. *)
Theorem empty_backend_url_queues_everything : forall w st,
  (PUBLIC_BACKEND_URL w = "" -> submissionMode w st = queued)
  /\ (PUBLIC_BACKEND_URL w <> "" -> imageSrc st = "" -> submissionMode w st = direct).
Proof.
  intros w st. unfold submissionMode. split.
  - intros E. rewrite E. destruct (imageSrc st); reflexivity.
  - intros N E. rewrite E. destruct (PUBLIC_BACKEND_URL w); [contradiction | reflexivity].
Qed.

Lemma empty_backend_url_queues_everything_witness :
  submissionMode {| PUBLIC_BACKEND_URL := ""; fetched := None; random := fun _ => 0%Q;
                    encoded := true; response := None; now := 0%Z; objectURL := "";
                    session := None |}
                 (editingAt twoCorners 1 fresh) = queued.
Proof.
  apply (proj1 (empty_backend_url_queues_everything _ (editingAt twoCorners 1 fresh))).
  reflexivity.
Defined.

(* ================================================================== *)
(** * Coordinates and the crop *)











(* ================================================================== *)
(** * Sizing the canvas *)






(** X18. A new image starts a new session, but the old overlay comes back.
    [onImageLoad] always leaves both stacks empty and [overlayDataUrl]
    unset, so that undo and redo do nothing.  With the canvas bound the
    overlay is blank when the handler returns; yet [setCanvasSize] runs
    before the reset, so that an overlay stored for the previous image is
    still queued to be redrawn over the new one. *)
Theorem onImageLoad_starts_session : forall bound imgRect devicePixelRatio st,
  let st' := fst (onImageLoad bound imgRect devicePixelRatio st) in
  let started := snd (onImageLoad bound imgRect devicePixelRatio st) in
  undoStack st' = [] /\ redoStack st' = [] /\ overlayDataUrl st' = None
  /\ (forall ok, undo ok st' = st' /\ redo ok st' = st')
  /\ reachable st'
  /\ (bound = true ->
      (forall x y, alphaAt (canvas st') x y = 0%Z)
      /\ path st' = []
      /\ forall url, overlayDataUrl st = Some url ->
           exists cssW cssH, started = [atCssSize url cssW cssH])
  /\ (bound = false \/ overlayDataUrl st = None -> started = [])
  /\ (bound = false -> canvas st' = canvas st).
Proof.
  intros bound imgRect devicePixelRatio st st' started. subst st' started.
  unfold onImageLoad, setCanvasSize. destruct bound; cbn [negb fst snd].
  - split; [reflexivity|]. split; [reflexivity|]. split; [reflexivity|].
    split; [intros ok; split; reflexivity|].
    split; [apply reach_start; reflexivity|].
    split; [|split].
    + intros _. split; [intros x y; apply alphaAt_blank|]. split; [reflexivity|].
      intros url E. rewrite E. cbn [redraws]. eexists. eexists. reflexivity.
    + intros [F | E]; [discriminate | rewrite E; reflexivity].
    + discriminate.
  - split; [reflexivity|]. split; [reflexivity|]. split; [reflexivity|].
    split; [intros ok; split; reflexivity|].
    split; [apply reach_start; reflexivity|].
    split; [discriminate|]. split; reflexivity.
Qed.

Lemma onImageLoad_starts_session_witness :
  exists cssW cssH,
    snd (onImageLoad true (DOMRect.mk 0 0 4 4) 1
           (onPointerUp true (editingAt twoCorners 1 fresh)))
    = [atCssSize (png twoCorners) cssW cssH].
Proof.
  destruct (onImageLoad_starts_session true (DOMRect.mk 0 0 4 4) 1
              (onPointerUp true (editingAt twoCorners 1 fresh)))
    as [_ [_ [_ [_ [_ [G _]]]]]].
  destruct (G eq_refl) as [_ [_ Q]]. apply Q. reflexivity.
Defined.

(** X19. A resize keeps the history and blanks the overlay until its images
    load.  [onWindowResize] never touches the stacks or the image
    identifiers.  With the canvas bound, the overlay is blank when the
    handler returns; what will be redrawn is the overlay stored before (if
    any) and then the snapshot taken on entry (if it succeeded), which
    also becomes [overlayDataUrl].  When no snapshot can be taken and none
    was stored, nothing is queued: the resize loses the overlay. *)
Theorem onWindowResize_keeps_history : forall bound imgRect devicePixelRatio ok st,
  let st' := fst (onWindowResize bound imgRect devicePixelRatio ok st) in
  let started := snd (onWindowResize bound imgRect devicePixelRatio ok st) in
  undoStack st' = undoStack st /\ redoStack st' = redoStack st
  /\ imageSrc st' = imageSrc st /\ src st' = src st
  /\ (reachable st -> reachable st')
  /\ (bound = false -> st' = st /\ started = [])
  /\ (bound = true ->
      (forall x y, alphaAt (canvas st') x y = 0%Z)
      /\ (ok = true ->
          overlayDataUrl st' = Some (png (canvas st))
          /\ exists before, started = before ++ [atRect (png (canvas st))])
      /\ (ok = false ->
          overlayDataUrl st' = overlayDataUrl st
          /\ (overlayDataUrl st = None -> started = []))).
Proof.
  intros bound imgRect devicePixelRatio ok st st' started. subst st' started.
  unfold onWindowResize, setCanvasSize. destruct bound; cbn [negb].
  - destruct ok; cbn [toDataURL fst snd].
    + split; [reflexivity|]. split; [reflexivity|]. split; [reflexivity|]. split; [reflexivity|].
      split; [intros R; apply (reach_other st); [exact R | reflexivity | reflexivity]|].
      split; [discriminate|]. intros _.
      split; [intros x y; apply alphaAt_blank|]. split; [|discriminate].
      intros _. split; [reflexivity|]. eexists. reflexivity.
    + split; [reflexivity|]. split; [reflexivity|]. split; [reflexivity|]. split; [reflexivity|].
      split; [intros R; apply (reach_other st); [exact R | reflexivity | reflexivity]|].
      split; [discriminate|]. intros _.
      split; [intros x y; apply alphaAt_blank|]. split; [discriminate|].
      intros _. split; [reflexivity|]. intros E. cbn [redraws]. rewrite E. reflexivity.
  - cbn [fst snd]. split; [reflexivity|]. split; [reflexivity|]. split; [reflexivity|].
    split; [reflexivity|]. split; [tauto|]. split; [split; reflexivity | discriminate].
Qed.

Lemma onWindowResize_keeps_history_witness :
  overlayDataUrl (fst (onWindowResize true (DOMRect.mk 0 0 4 4) 1 true
                         (editingAt twoCorners 1 fresh)))
  = Some (png twoCorners).
Proof.
  destruct (onWindowResize_keeps_history true (DOMRect.mk 0 0 4 4) 1 true
              (editingAt twoCorners 1 fresh)) as [_ [_ [_ [_ [_ [_ G]]]]]].
  destruct (G eq_refl) as [_ [T _]]. exact (proj1 (T eq_refl)).
Defined.

(* ================================================================== *)
(** * The keyboard *)

Lemma keyHandler_cases : forall e ok st active,
  let k := toLowerCase (key e) in
  (keyHandler e ok st active = (undo ok st, active)
   /\ (ctrlKey e || metaKey e) = true /\ shiftKey e = false /\ k = "z")
  \/ (keyHandler e ok st active = (redo ok st, active)
      /\ (ctrlKey e || metaKey e) = true /\ shiftKey e = true /\ k = "z")
  \/ (keyHandler e ok st active = (set_tool brush st, active) /\ k = "b")
  \/ (keyHandler e ok st active = (set_tool eraser st, active) /\ k = "e")
  \/ (keyHandler e ok st active = (st, false) /\ k = "escape")
  \/ keyHandler e ok st active = (st, active).
Proof.
  intros e ok st active k. unfold keyHandler. fold k.
  destruct (String.eqb_spec k "z") as [Ez|Nz].
  - destruct (ctrlKey e || metaKey e); cbn [andb].
    + destruct (shiftKey e); cbn [negb andb].
      * right; left. tauto.
      * left. tauto.
    + rewrite Ez. cbn. right; right; right; right; right. reflexivity.
  - rewrite !andb_false_r.
    destruct (String.eqb_spec k "b") as [Eb|Nb]; [right; right; left; tauto|].
    destruct (String.eqb_spec k "e") as [Ee|Ne]; [right; right; right; left; tauto|].
    destruct (String.eqb_spec k "escape") as [Es|Ns]; [right; right; right; right; left; tauto|].
    right; right; right; right; right. reflexivity.
Qed.

Lemma undo_canvas : forall ok st, canvas (undo ok st) = canvas st.
Proof.
  intros ok st. destruct (undo_stacks ok st) as [E | [u [x [_ [_ [_ [C _]]]]]]];
    [rewrite E; reflexivity | exact C].
Qed.

Lemma redo_canvas : forall ok st, canvas (redo ok st) = canvas st.
Proof.
  intros ok st. destruct (redo_stacks ok st) as [E | [u [x [_ [_ [_ [C _]]]]]]];
    [rewrite E; reflexivity | exact C].
Qed.

Lemma keyHandler_reachable : forall e ok st active,
  reachable st -> reachable (fst (keyHandler e ok st active)).
Proof.
  intros e ok st active R.
  destruct (keyHandler_cases e ok st active)
    as [[E _] | [[E _] | [[E _] | [[E _] | [[E _] | E]]]]]; rewrite E; cbn [fst].
  - apply reach_undo. exact R.
  - apply reach_redo. exact R.
  - apply (reach_other st); [exact R | reflexivity | reflexivity].
  - apply (reach_other st); [exact R | reflexivity | reflexivity].
  - exact R.
  - exact R.
Qed.



(* ================================================================== *)
(** * Invariants of a session *)

Lemma drawImage_wf : forall image sx sy sw sh dx dy dw dh dst,
  Canvas.wf dst -> Canvas.wf (drawImage image sx sy sw sh dx dy dw dh dst).
Proof.
  intros. unfold drawImage. destruct (_ || _); [assumption|].
  apply tabulate_wf. intros i j. destruct (_ && _); apply rgba_length.
Qed.

Lemma kept_refl : forall st, kept st st.
Proof. intros st. repeat split; auto. Qed.

Lemma kept_trans : forall a b c, kept a b -> kept b c -> kept a c.
Proof.
  intros a b c [W [H [D F]]] [W' [H' [D' F']]]. repeat split; try congruence. auto.
Qed.

Lemma kept_stroke : forall st op round col lw segs p,
  kept st (set_canvas (stroke op round col lw (dpr st) segs (canvas st)) p st).
Proof.
  intros. destruct (stroke_size op round col lw (dpr st) segs (canvas st)) as [W [H F]].
  repeat split; auto.
Qed.

Lemma kept_pushUndo : forall ok st, kept st (pushUndo ok st).
Proof. intros [] st; repeat split; auto. Qed.

Lemma kept_onPointerDown : forall dom e ok st, kept st (onPointerDown dom e ok st).
Proof.
  intros dom e ok st. unfold onPointerDown. destruct (_ || _); [apply kept_refl|].
  apply (kept_trans _ (pushUndo ok st)); [apply kept_pushUndo|].
  unfold drawPoint, drawLine.
  destruct (stroke_size
              (match tool (set_pointer true (fst (pointerPos dom e)) (snd (pointerPos dom e))
                             (pushUndo ok st)) with
               | eraser => destination_out | brush => source_over end)
              true
              (brushColor (set_pointer true (fst (pointerPos dom e)) (snd (pointerPos dom e))
                             (pushUndo ok st)))
              (Math.max (1 # 2)
                 (brushSize (set_pointer true (fst (pointerPos dom e)) (snd (pointerPos dom e))
                               (pushUndo ok st)) * effectivePressure e))
              (dpr (set_pointer true (fst (pointerPos dom e)) (snd (pointerPos dom e))
                      (pushUndo ok st)))
              [Line (fst (pointerPos dom e)) (snd (pointerPos dom e))
                    (fst (pointerPos dom e)) (snd (pointerPos dom e))]
              (canvas (set_pointer true (fst (pointerPos dom e)) (snd (pointerPos dom e))
                         (pushUndo ok st)))) as [W [H F]].
  repeat split; auto.
Qed.

Lemma kept_onPointerMove : forall dom e st, kept st (onPointerMove dom e st).
Proof.
  intros dom e st. unfold onPointerMove. destruct (negb (drawing st)); [apply kept_refl|].
  unfold drawLine. cbn [set_pointer].
  destruct (stroke_size (match tool st with eraser => destination_out | brush => source_over end)
              true (brushColor st) (Math.max (1 # 2) (brushSize st * effectivePressure e))
              (dpr st)
              [Line (lastX st) (lastY st) (fst (pointerPos dom e)) (snd (pointerPos dom e))]
              (canvas st)) as [W [H F]].
  repeat split; auto.
Qed.

Lemma kept_onPointerUp : forall ok st, kept st (onPointerUp ok st).
Proof. intros [] st; repeat split; auto. Qed.

Lemma kept_clearCanvas : forall ok ok' st, kept st (clearCanvas ok ok' st).
Proof.
  intros ok ok' st. unfold clearCanvas.
  destruct ok'; destruct ok; cbn; repeat split; auto; intros _; apply blank_wf.
Qed.

Lemma kept_undo : forall ok st, kept st (undo ok st).
Proof.
  intros ok st. unfold kept. rewrite undo_canvas.
  repeat split; auto. unfold undo. destruct (_ =? _)%nat; [reflexivity|].
  destruct (toDataURL ok (canvas st)); [|reflexivity].
  destruct (pop (undoStack st)) as [[l|] r]; reflexivity.
Qed.

Lemma kept_redo : forall ok st, kept st (redo ok st).
Proof.
  intros ok st. unfold kept. rewrite redo_canvas.
  repeat split; auto. unfold redo. destruct (_ =? _)%nat; [reflexivity|].
  destruct (toDataURL ok (canvas st)); [|reflexivity].
  destruct (pop (redoStack st)) as [[l|] r]; reflexivity.
Qed.

Lemma kept_onload : forall dom ok st, kept st (onload dom ok st).
Proof.
  intros dom ok st. unfold onload. destruct (loading st) as [|[img] rest]; [apply kept_refl|].
  unfold kept.
  destruct ok; cbn [toDataURL canvas dpr set_overlayDataUrl set_loading set_canvas];
    rewrite (proj1 (drawImage_size _ _ _ _ _ _ _ _ _ _)),
            (proj2 (drawImage_size _ _ _ _ _ _ _ _ _ _));
    (repeat split; auto; intros _; apply drawImage_wf, blank_wf).
Qed.

Lemma kept_breakBones : forall w dom st, kept st (fst (breakBones w dom st)).
Proof.
  intros w dom st. rewrite breakBones_run.
  assert (O : kept st (afterOutline w dom st)) by apply kept_stroke.
  destruct (fetched w); [|apply kept_refl].
  destruct (toBlob _ _); [|exact O]. cbn [fst].
  destruct (response w) as [res|]; [|exact O]. destruct (ok res); [|exact O].
  unfold afterSuccess. destruct (submissionMode w st).
  - repeat split; auto. intros _. apply blank_wf.
  - exact O.
Qed.

Lemma kept_keyHandler : forall e ok st active, kept st (fst (keyHandler e ok st active)).
Proof.
  intros e ok st active.
  destruct (keyHandler_cases e ok st active)
    as [[E _] | [[E _] | [[E _] | [[E _] | [[E _] | E]]]]]; rewrite E; cbn [fst];
    [apply kept_undo | apply kept_redo | | | | ]; apply kept_refl || (repeat split; auto).
Qed.

Lemma kept_handle : forall st h, kept st (handle st h).
Proof.
  intros st [dom e ok | dom e | ok | ok ok' | ok | ok | dom ok | w dom | e ok active];
    cbn [handle].
  - apply kept_onPointerDown.
  - apply kept_onPointerMove.
  - apply kept_onPointerUp.
  - apply kept_clearCanvas.
  - apply kept_undo.
  - apply kept_redo.
  - apply kept_onload.
  - apply kept_breakBones.
  - apply kept_keyHandler.
Qed.

Lemma reachable_handle : forall st h, reachable st -> reachable (handle st h).
Proof.
  intros st [dom e ok | dom e | ok | ok ok' | ok | ok | dom ok | w dom | e ok active] R;
    cbn [handle]; try (constructor; exact R).
  apply keyHandler_reachable. exact R.
Qed.

Lemma kept_handles : forall handlers st, kept st (fold_left handle handlers st).
Proof.
  induction handlers as [|h hs IH]; intros st; [apply kept_refl|].
  cbn [fold_left]. apply (kept_trans _ (handle st h)); [apply kept_handle | apply IH].
Qed.

Lemma reachable_handles : forall handlers st,
  reachable st -> reachable (fold_left handle handlers st).
Proof.
  induction handlers as [|h hs IH]; intros st Rs; [exact Rs|].
  cbn [fold_left]. apply IH, reachable_handle, Rs.
Qed.

(** X21. The invariants of an editing session.  Whatever handlers run after
    [setCanvasSize], in whatever order and with whatever answers from the
    document and the network (presses, moves, lifts, clears, undos, redos,
    image loads of restores, submissions, keys), the backing store keeps
    its size and its pixel ratio: only [setCanvasSize] resizes it.  A
    well-formed store stays well formed, a canvas that is laid out stays
    laid out, and a reachable state stays reachable, with at most 25 undo
    entries. *)
Theorem session_invariants : forall handlers st,
  let st' := fold_left handle handlers st in
  Canvas.width (canvas st') = Canvas.width (canvas st)
  /\ Canvas.height (canvas st') = Canvas.height (canvas st)
  /\ dpr st' = dpr st
  /\ (Canvas.wf (canvas st) -> Canvas.wf (canvas st'))
  /\ (forall dom, fits dom st -> fits dom st')
  /\ (forall dom, laidOut dom st -> laidOut dom st')
  /\ (reachable st -> reachable st' /\ List.length (undoStack st') <= 25).
Proof.
  intros handlers st st'. subst st'.
  pose proof (reachable_handles handlers st) as R.
  destruct (kept_handles handlers st) as [W [H [D F]]].
  split; [exact W|]. split; [exact H|]. split; [exact D|]. split; [exact F|].
  split; [|split].
  - intros dom [Fw Fh]. unfold fits. rewrite W, H, D. split; assumption.
  - intros dom L. unfold laidOut in *. rewrite W, H. exact L.
  - intros Rs. split; [apply R, Rs|].
    pose proof (history_budget _ (R Rs)). lia.
Qed.

Lemma session_invariants_witness :
  fits (layout 4 4)
       (fold_left handle
          [PointerDown (layout 4 4) (press 0) true; PointerUp true; Undo true;
           ImageLoaded (layout 4 4) true; BreakBones (world None) (layout 4 4)]
          (editingAt twoCorners 1 fresh)).
Proof.
  apply (proj1 (proj2 (proj2 (proj2 (proj2
           (session_invariants
              [PointerDown (layout 4 4) (press 0) true; PointerUp true; Undo true;
               ImageLoaded (layout 4 4) true; BreakBones (world None) (layout 4 4)]
              (editingAt twoCorners 1 fresh))))))).
  exact twoCorners_fits.
Defined.

(* ================================================================== *)
(** * Depth of the history *)

Lemma pushUndo_depth : forall st,
  List.length (undoStack st) <= 25 ->
  List.length (undoStack (pushUndo true st)) = Nat.min 25 (S (List.length (undoStack st))).
Proof.
  intros st B. rewrite pushUndo_stacks. cbn [undoStack set_stacks].
  assert (L : List.length (undoStack st ++ [png (canvas st)]) = S (List.length (undoStack st))).
  { rewrite length_app. cbn [List.length]. lia. }
  revert L. generalize (undoStack st ++ [png (canvas st)]). intros l L.
  destruct (Nat.ltb_spec 25 (List.length l)) as [Hl|Hl].
  - destruct l as [|a l]; cbn [tl List.length] in *; lia.
  - lia.
Qed.

Lemma draws_step : forall st h,
  draws h -> List.length (undoStack st) <= 25 ->
  List.length (undoStack (handle st h))
  = (if records h then Nat.min 25 (S (List.length (undoStack st)))
     else List.length (undoStack st))
  /\ (records h = true -> redoStack (handle st h) = []).
Proof.
  intros st [dom e ok | dom e | ok | ok ok' | ok | ok | dom ok | w dom | e ok active] D B;
    cbn [draws] in D; try contradiction; cbn [handle records].
  - unfold onPointerDown.
    destruct ((button e =? 1)%Z || (button e =? 2)%Z) eqn:I.
    + rewrite andb_false_r. split; [reflexivity | discriminate].
    + destruct D as [-> | [E | E]].
      * cbn [andb negb]. split; [|reflexivity].
        change (undoStack (drawPoint _ _ _ (set_pointer true _ _ (pushUndo true st))))
          with (undoStack (pushUndo true st)).
        apply pushUndo_depth. exact B.
      * rewrite E in I. discriminate.
      * rewrite E in I. rewrite orb_true_r in I. discriminate.
  - destruct (track_frame dom st (moved e)) as [U _]. cbn [track] in U.
    split; [rewrite U; reflexivity | discriminate].
  - destruct (track_frame (layout 1 1) st (lifted ok)) as [U _]. cbn [track] in U.
    split; [rewrite U; reflexivity | discriminate].
  - subst ok. split.
    + replace (undoStack (clearCanvas true ok' st)) with (undoStack (pushUndo true st))
        by (unfold clearCanvas; destruct ok'; reflexivity).
      apply pushUndo_depth. exact B.
    + intros _. unfold clearCanvas. destruct ok'; reflexivity.
Qed.

(** X22. The history remembers the last 25 changes.  Along any drawing (presses
    and clears whose snapshot succeeds, moves, lifts), each recorded change
    adds one undo entry until there are 25; from then on the count stays at
    25.  Once a change has been recorded there is nothing to redo. *)
Theorem history_depth : forall handlers st,
  Forall draws handlers ->
  List.length (undoStack st) <= 25 ->
  let st' := fold_left handle handlers st in
  List.length (undoStack st')
  = Nat.min 25 (List.length (undoStack st) + List.length (filter records handlers))
  /\ (existsb records handlers = true -> redoStack st' = []).
Proof.
  induction handlers as [|h hs IH]; intros st F B st'; subst st'.
  - cbn [fold_left filter existsb List.length]. rewrite Nat.add_0_r.
    split; [symmetry; apply Nat.min_r; exact B | discriminate].
  - inversion F as [|? ? Dh Dhs]; subst. cbn [fold_left filter existsb].
    destruct (draws_step st h Dh B) as [L R].
    assert (B' : List.length (undoStack (handle st h)) <= 25).
    { rewrite L. destruct (records h); lia. }
    destruct (IH (handle st h) Dhs B') as [L' R']. cbv zeta in L', R'.
    split.
    + rewrite L', L. destruct (records h); cbn [List.length]; lia.
    + intros E. destruct (existsb records hs) eqn:X; [apply R'; reflexivity|].
      rewrite orb_false_r in E.
      assert (Fr : forall hs' s, Forall draws hs' -> existsb records hs' = false ->
                     redoStack (fold_left handle hs' s) = redoStack s).
      { clear. induction hs' as [|h' hs' IH']; intros s F' X'; [reflexivity|].
        inversion F' as [|? ? D1 D2]; subst. cbn [existsb] in X'.
        apply orb_false_iff in X' as [X1 X2]. cbn [fold_left]. rewrite (IH' _ D2 X2).
        destruct h' as [dom e ok | dom e | ok | ok ok' | ok | ok | dom ok | w dom | e ok active];
          cbn [draws] in D1; try contradiction; cbn [handle records] in *.
        - unfold onPointerDown. destruct ((button e =? 1)%Z || (button e =? 2)%Z); [reflexivity|].
          cbn [negb] in X1. rewrite andb_true_r in X1. subst ok. reflexivity.
        - unfold onPointerMove. destruct (negb (drawing s)); reflexivity.
        - unfold onPointerUp. destruct ok; reflexivity.
        - subst ok. discriminate. }
      rewrite (Fr hs _ Dhs X). apply R. exact E.
Qed.

Lemma history_depth_witness :
  List.length (undoStack (fold_left handle
     (repeat (ClearCanvas true true) 30) (editingAt twoCorners 1 fresh))) = 25.
Proof.
  apply (proj1 (history_depth (repeat (ClearCanvas true true) 30)
                  (editingAt twoCorners 1 fresh)
                  ltac:(repeat constructor) ltac:(simpl; lia))).
Defined.

Lemma walks_step : forall st h,
  walks h ->
  List.length (undoStack (handle st h)) + List.length (redoStack (handle st h))
  = List.length (undoStack st) + List.length (redoStack st).
Proof.
  assert (U : forall ok st,
    List.length (undoStack (undo ok st)) + List.length (redoStack (undo ok st))
    = List.length (undoStack st) + List.length (redoStack st)).
  { intros ok st. destruct (undo_stacks ok st) as [E | [u [x [E [Eu [Er _]]]]]].
    - rewrite E. reflexivity.
    - rewrite Eu, Er, E, !length_app. simpl. lia. }
  assert (R : forall ok st,
    List.length (undoStack (redo ok st)) + List.length (redoStack (redo ok st))
    = List.length (undoStack st) + List.length (redoStack st)).
  { intros ok st. destruct (redo_stacks ok st) as [E | [u [x [E [Er [Eu _]]]]]].
    - rewrite E. reflexivity.
    - rewrite Eu, Er, E, !length_app. simpl. lia. }
  intros st [dom e ok | dom e | ok | ok ok' | ok | ok | dom ok | w dom | e ok active] W;
    cbn [walks] in W; try contradiction; cbn [handle].
  - apply U.
  - apply R.
  - destruct (onload_stacks dom ok st) as [A B]. rewrite A, B. reflexivity.
  - destruct (keyHandler_cases e ok st active)
      as [[E _] | [[E _] | [[E _] | [[E _] | [[E _] | E]]]]]; rewrite E; cbn [fst];
      [apply U | apply R | reflexivity | reflexivity | reflexivity | reflexivity].
Qed.

(** X23. Walking the history loses nothing.  Undos and redos (by button or by
    key, with snapshots that succeed or fail) and the image loads they
    cause only move snapshots between the two stacks: the number of
    entries in both together never changes. *)
Theorem history_is_conserved : forall handlers st,
  Forall walks handlers ->
  let st' := fold_left handle handlers st in
  List.length (undoStack st') + List.length (redoStack st')
  = List.length (undoStack st) + List.length (redoStack st).
Proof.
  induction handlers as [|h hs IH]; intros st F st'; subst st'; [reflexivity|].
  inversion F as [|? ? Wh Whs]; subst. cbn [fold_left].
  rewrite (IH (handle st h) Whs). apply walks_step. exact Wh.
Qed.

Lemma history_is_conserved_witness :
  let st := clearCanvas true true (editingAt twoCorners 1 fresh) in
  let st' := fold_left handle [Undo true; ImageLoaded (layout 4 4) true; Redo true; Undo false] st in
  List.length (undoStack st') + List.length (redoStack st') = 1.
Proof.
  intros st st'.
  apply (history_is_conserved [Undo true; ImageLoaded (layout 4 4) true; Redo true; Undo false] st).
  repeat constructor.
Defined.
